(** * sfmatch: matching text into structs through one composite regular expression

    A shallow embedding of [sfmatch.go] (package [sfmatch]) and of the parts
    of Go's [reflect], [strconv] and [regexp] packages that it calls, followed
    by the properties of [CompileWithDelimiter] and [Match.Unmarshal]. *)

From Stdlib Require Import ZArith String Ascii List Bool Lia SpecFloat DecimalString.
From stdpp Require Import base option list.

Set Warnings "-register-all".

Local Open Scope string_scope.
Local Open Scope Z_scope.

(** ** Panics

    [reflect] panics on misuse, and [Unmarshal] documents that it relies on
    it ("reflect will panic if the type mismatches"), so every operation that
    can panic returns a [result]. *)

Inductive result (A : Type) : Type :=
| Ok (a : A)
| Panic (msg : string).
Arguments Ok {A} a.
Arguments Panic {A} msg.

Definition rbind {A B : Type} (x : result A) (f : A -> result B) : result B :=
  match x with
  | Ok a => f a
  | Panic msg => Panic msg
  end.

Notation "'do' x <- e1 ; e2" := (rbind e1 (fun x => e2))
  (at level 10, x name, e1 at level 100, e2 at level 200).

(** ** Errors

    Go's [error] values that the package creates or passes on. *)

Inductive NumErrKind : Type := ErrSyntax | ErrRange.

Inductive error : Type :=
| ErrUnsupportedKind                                (* var ErrUnsupportedKind = errors.New("Unsupported kind") *)
| errors_New (msg : string)                         (* github.com/pkg/errors New *)
| NumError (fn num : string) (e : NumErrKind)       (* *strconv.NumError *)
| syntax_Error (code expr : string)                 (* *regexp/syntax.Error *)
| fmt_Errorf_w (msg : string) (wrapped : error)     (* fmt.Errorf with a trailing ": %w" *)
| errors_Wrap (cause : error) (msg : string).       (* github.com/pkg/errors Wrap and Wrapf *)

(** The double quote character. *)
Definition dquote : ascii := ascii_of_nat 34.

(** [strconv.Quote] on text made of printable ASCII: the text between double
    quotes, with a backslash before each double quote and backslash. *)
Fixpoint quote_body (s : string) : string :=
  match s with
  | EmptyString => EmptyString
  | String c rest =>
      if (Ascii.eqb c dquote || Ascii.eqb c "\")%bool
      then String "\" (String c (quote_body rest))
      else String c (quote_body rest)
  end.

Definition strconv_Quote (s : string) : string :=
  String dquote (quote_body s ++ String dquote EmptyString).

(** The [Error()] method. *)
Fixpoint Error (e : error) : string :=
  match e with
  | ErrUnsupportedKind => "Unsupported kind"
  | errors_New msg => msg
  | NumError fn num k =>
      "strconv." ++ fn ++ ": parsing " ++ strconv_Quote num ++ ": " ++
      match k with
      | ErrSyntax => "invalid syntax"
      | ErrRange => "value out of range"
      end
  | syntax_Error code expr => "error parsing regexp: " ++ code ++ ": `" ++ expr ++ "`"
  | fmt_Errorf_w msg wrapped => msg ++ ": " ++ Error wrapped
  | errors_Wrap cause msg => msg ++ ": " ++ Error cause
  end.

(** [err == ErrUnsupportedKind]: identity with the package-level sentinel. *)
Definition is_ErrUnsupportedKind (e : option error) : bool :=
  match e with
  | Some ErrUnsupportedKind => true
  | _ => false
  end.

(** ** reflect.Kind *)

Inductive Kind : Type :=
| Invalid | Bool
| Int | Int8 | Int16 | Int32 | Int64
| Uint | Uint8 | Uint16 | Uint32 | Uint64 | Uintptr
| Float32 | Float64 | Complex64 | Complex128
| Array | Chan | Func | Interface | Map | Ptr | Slice
| String_ | Struct | UnsafePointer.

Definition Kind_eq_dec (a b : Kind) : {a = b} + {a <> b}.
Proof. decide equality. Defined.

Definition Kind_eqb (a b : Kind) : bool :=
  if Kind_eq_dec a b then true else false.

(** The target's word size decides the width of [int], [uint] and [uintptr]. *)
Inductive Arch : Type := Arch32 | Arch64.

Definition IntSize (a : Arch) : Z :=
  match a with
  | Arch32 => 32
  | Arch64 => 64
  end.

(** ** strconv: ParseBool, ParseUint, ParseInt *)

Module strconv.

Definition ParseBool (str : string) : bool * option error :=
  if (String.eqb str "1" || String.eqb str "t" || String.eqb str "T" ||
      String.eqb str "TRUE" || String.eqb str "true" || String.eqb str "True")%bool
  then (true, None)
  else if (String.eqb str "0" || String.eqb str "f" || String.eqb str "F" ||
           String.eqb str "FALSE" || String.eqb str "false" || String.eqb str "False")%bool
  then (false, None)
  else (false, Some (NumError "ParseBool" str ErrSyntax)).

Definition lower (c : Z) : Z := Z.lor c 32.

Definition byte_of (c : ascii) : Z := Z.of_N (N_of_ascii c).

Definition maxUint64 : Z := 2 ^ 64 - 1.

(** The digit loop of [ParseUint] for a base between 2 and 36 given by the
    caller (so underscores are never accepted) and [0 < bitSize <= 64]:
    [n] is the value read so far, [s0] the whole text for the error. *)
Fixpoint ParseUint_loop (fn s0 : string) (base cutoff maxVal : Z)
    (s : string) (n : Z) : Z * option error :=
  match s with
  | EmptyString => (n, None)
  | String ch rest =>
      let c := byte_of ch in
      let d :=
        if (48 <=? c) && (c <=? 57) then Some (c - 48)
        else if (97 <=? lower c) && (lower c <=? 122) then Some (lower c - 97 + 10)
        else None in
      match d with
      | None => (0, Some (NumError fn s0 ErrSyntax))
      | Some d =>
          if base <=? d then (0, Some (NumError fn s0 ErrSyntax))
          else if cutoff <=? n then (maxVal, Some (NumError fn s0 ErrRange))
          else
            let n' := n * base in
            let n1 := (n' + d) mod 2 ^ 64 in
            if (n1 <? n') || (maxVal <? n1) then (maxVal, Some (NumError fn s0 ErrRange))
            else ParseUint_loop fn s0 base cutoff maxVal rest n1
      end
  end.

(** [ParseUint(s, base, bitSize)] for [2 <= base <= 36] and
    [0 < bitSize <= 64], the only way this package calls it. *)
Definition ParseUint (s : string) (base bitSize : Z) : Z * option error :=
  if String.eqb s EmptyString then (0, Some (NumError "ParseUint" s ErrSyntax))
  else
    let cutoff := maxUint64 / base + 1 in
    let maxVal := 2 ^ bitSize - 1 in
    ParseUint_loop "ParseUint" s base cutoff maxVal s 0.

Definition ParseInt (s : string) (base bitSize : Z) : Z * option error :=
  match s with
  | EmptyString => (0, Some (NumError "ParseInt" s ErrSyntax))
  | String c0 rest =>
      let s0 := s in
      let '(neg, s) :=
        if Ascii.eqb c0 "+" then (false, rest)
        else if Ascii.eqb c0 "-" then (true, rest)
        else (false, s) in
      let '(un, err) := ParseUint s base bitSize in
      match err with
      | Some (NumError _ _ ErrRange) | None =>
          let cutoff := 2 ^ (bitSize - 1) in
          if negb neg && (cutoff <=? un) then (cutoff - 1, Some (NumError "ParseInt" s0 ErrRange))
          else if neg && (cutoff <? un) then (- cutoff, Some (NumError "ParseInt" s0 ErrRange))
          else (if neg then - un else un, None)
      | Some _ => (0, Some (NumError "ParseInt" s0 ErrSyntax))
      end
  end.

End strconv.

(** ** reflect: types

    A type is inspected through [Kind], [Elem], [NumField] and [Field] only,
    so pointers and structs carry their structure and every other type is
    its kind. *)

Record StructField_ (T : Type) : Type := mkStructField {
  Name : string;
  PkgPath : string;      (* empty exactly for an exported field *)
  Tag : string;
  Type_ : T
}.
Arguments mkStructField {T}.
Arguments Name {T}.
Arguments PkgPath {T}.
Arguments Tag {T}.
Arguments Type_ {T}.

Inductive GoType : Type :=
| TOther (k : Kind)
| TPtr (elem : GoType)
| TStruct (fields : list (StructField_ GoType)).

Abbreviation StructField := (StructField_ GoType).

Definition Type_Kind (t : GoType) : Kind :=
  match t with
  | TOther k => k
  | TPtr _ => Ptr
  | TStruct _ => Struct
  end.

Definition Type_Elem (t : GoType) : result GoType :=
  match t with
  | TPtr e => Ok e
  | _ => Panic "reflect: Elem of invalid type"
  end.

Definition struct_fields (t : GoType) : list StructField :=
  match t with
  | TStruct fs => fs
  | _ => []
  end.

Definition Type_NumField (t : GoType) : result nat :=
  match t with
  | TStruct fs => Ok (length fs)
  | _ => Panic "reflect: NumField of non-struct type"
  end.

(** ** Values and interface values

    A pointer owns the current content of what it points to: [Unmarshal]
    receives one destination and nothing else refers to it during the call. *)

Inductive GoValue : Type :=
| VBool (b : bool)
| VInt (i : Z)
| VUint (u : Z)
| VFloat (f : spec_float)
| VString (s : string)
| VStruct (fields : list GoValue)
| VPtr (target : option GoValue)
| VOther.

(** [interface{}]: nil, or a dynamic type with its value. *)
Inductive interface : Type :=
| nil_interface
| Iface (t : GoType) (v : GoValue).

Definition TypeOf (i : interface) : option GoType :=
  match i with
  | nil_interface => None
  | Iface t _ => Some t
  end.

(** ** StructTag.Lookup *)

Section TagLookup.

Variable Unquote : string -> option string.

Fixpoint skip_spaces (tag : string) : string :=
  match tag with
  | String c rest => if Ascii.eqb c " " then skip_spaces rest else tag
  | EmptyString => tag
  end.

(** Scan to the colon: the longest prefix without a space, a colon, a quote
    or a control character. *)
Fixpoint scan_name (tag : string) : string * string :=
  match tag with
  | String c rest =>
      let b := strconv.byte_of c in
      if (32 <? b) && negb (Ascii.eqb c ":") && negb (Ascii.eqb c dquote) && negb (b =? 127)
      then let '(name, tl) := scan_name rest in (String c name, tl)
      else (EmptyString, tag)
  | EmptyString => (EmptyString, EmptyString)
  end.

(** Scan the quoted string after its opening quote: the text before the
    closing quote (a backslash takes the next byte with it) and what follows
    the closing quote. *)
Fixpoint scan_quoted (tag : string) : option (string * string) :=
  match tag with
  | EmptyString => None
  | String c rest =>
      if Ascii.eqb c dquote then Some (EmptyString, rest)
      else if Ascii.eqb c "\" then
        match rest with
        | EmptyString => None
        | String c2 rest2 =>
            match scan_quoted rest2 with
            | Some (body, tl) => Some (String c (String c2 body), tl)
            | None => None
            end
        end
      else
        match scan_quoted rest with
        | Some (body, tl) => Some (String c body, tl)
        | None => None
        end
  end.

Fixpoint Tag_Lookup_loop (fuel : nat) (tag key : string) : string * bool :=
  match fuel with
  | O => (EmptyString, false)
  | S fuel =>
      let tag := skip_spaces tag in
      if String.eqb tag EmptyString then (EmptyString, false)
      else
        let '(name, tl) := scan_name tag in
        match tl with
        | String c1 (String c2 tl') =>
            if String.eqb name EmptyString || negb (Ascii.eqb c1 ":") || negb (Ascii.eqb c2 dquote)
            then (EmptyString, false)
            else
              match scan_quoted tl' with
              | None => (EmptyString, false)
              | Some (body, tag') =>
                  let qvalue := String dquote (body ++ String dquote EmptyString) in
                  if String.eqb key name then
                    match Unquote qvalue with
                    | Some value => (value, true)
                    | None => (EmptyString, false)
                    end
                  else Tag_Lookup_loop fuel tag' key
              end
        | _ => (EmptyString, false)
        end
  end.

Definition Tag_Lookup (tag key : string) : string * bool :=
  Tag_Lookup_loop (String.length tag) tag key.

End TagLookup.

(** ** reflect: Value *)

Inductive Value : Type :=
| ZeroValue                                              (* reflect.Value{} *)
| MkValue (t : GoType) (addr ro : bool) (x : GoValue).   (* flagAddr, flagRO *)

Definition ValueOf (i : interface) : Value :=
  match i with
  | nil_interface => ZeroValue
  | Iface t x => MkValue t false false x
  end.

Definition CanSet (v : Value) : bool :=
  match v with
  | ZeroValue => false
  | MkValue _ addr ro _ => addr && negb ro
  end.

(** [Elem] of the value [ValueOf] returns: its kind is never [Interface],
    so only a pointer has one; a nil pointer gives the zero Value. *)
Definition Value_Elem (v : Value) : result Value :=
  match v with
  | MkValue (TPtr e) _ ro (VPtr (Some x)) => Ok (MkValue e true ro x)
  | MkValue (TPtr e) _ ro (VPtr None) => Ok ZeroValue
  | _ => Panic "reflect: call of reflect.Value.Elem on non-pointer Value"
  end.

Definition exported (f : StructField) : bool := String.eqb (PkgPath f) EmptyString.

Definition Value_Field (v : Value) (i : nat) : result Value :=
  match v with
  | MkValue (TStruct fs) addr ro (VStruct xs) =>
      match fs !! i, xs !! i with
      | Some f, Some x => Ok (MkValue (Type_ f) addr (ro || negb (exported f)) x)
      | _, _ => Panic "reflect: Field index out of range"
      end
  | _ => Panic "reflect: call of reflect.Value.Field on non-struct Value"
  end.

Definition wrap_signed (w x : Z) : Z := (x + 2 ^ (w - 1)) mod 2 ^ w - 2 ^ (w - 1).
Definition wrap_unsigned (w x : Z) : Z := x mod 2 ^ w.

(** [float32(x)]: round to nearest even in binary32. *)
Definition to_float32 (x : spec_float) : spec_float :=
  match x with
  | S754_finite s m e => binary_normalize 24 128 (cond_Zopp s (Zpos m)) e s
  | _ => x
  end.

Section Setters.

Variable arch : Arch.

Definition int_width (k : Kind) : option Z :=
  match k with
  | Int => Some (IntSize arch)
  | Int8 => Some 8 | Int16 => Some 16 | Int32 => Some 32 | Int64 => Some 64
  | _ => None
  end.

Definition uint_width (k : Kind) : option Z :=
  match k with
  | Uint | Uintptr => Some (IntSize arch)
  | Uint8 => Some 8 | Uint16 => Some 16 | Uint32 => Some 32 | Uint64 => Some 64
  | _ => None
  end.

(** [mustBeAssignable] followed by the store [set] makes for the kind. *)
Definition assign (v : Value) (set : GoType -> option GoValue) : result Value :=
  match v with
  | ZeroValue => Panic "reflect: call of Set on zero Value"
  | MkValue t addr ro _ =>
      if ro then Panic "reflect: Set using value obtained using unexported field"
      else if negb addr then Panic "reflect: Set using unaddressable value"
      else
        match set t with
        | Some x => Ok (MkValue t addr ro x)
        | None => Panic "reflect: call of Set on Value of another kind"
        end
  end.

Definition SetBool (v : Value) (x : bool) : result Value :=
  assign v (fun t => match Type_Kind t with Bool => Some (VBool x) | _ => None end).

Definition SetInt (v : Value) (x : Z) : result Value :=
  assign v (fun t => option_map (fun w => VInt (wrap_signed w x)) (int_width (Type_Kind t))).

Definition SetUint (v : Value) (x : Z) : result Value :=
  assign v (fun t => option_map (fun w => VUint (wrap_unsigned w x)) (uint_width (Type_Kind t))).

Definition SetFloat (v : Value) (x : spec_float) : result Value :=
  assign v (fun t =>
    match Type_Kind t with
    | Float32 => Some (VFloat (to_float32 x))
    | Float64 => Some (VFloat x)
    | _ => None
    end).

Definition SetString (v : Value) (x : string) : result Value :=
  assign v (fun t => match Type_Kind t with String_ => Some (VString x) | _ => None end).

End Setters.

(** ** The standard library behind the package

    [regexp], [strconv.ParseFloat] and [strconv.Unquote] (used by
    [StructTag.Lookup]) are not part of the package: the package is modelled
    over any implementation of them.  [FindStringSubmatch_length] is the
    documented shape of a submatch slice: the whole match followed by one
    entry for each capturing group. *)

Class GoLib (Regexp : Type) : Type := {
  regexp_Compile : string -> Regexp + error;
  NumSubexp : Regexp -> nat;
  FindStringSubmatch : Regexp -> string -> option (list string);
  FindStringSubmatch_length :
    forall (r : Regexp) (data : string) (s : list string),
      FindStringSubmatch r data = Some s -> length s = S (NumSubexp r);
  ParseFloat : string -> Z -> spec_float * option error;
  Unquote : string -> option string
}.

(** [strconv.Itoa] on a field index. *)
Definition Itoa (n : nat) : string :=
  NilEmpty.string_of_uint (Nat.to_uint n).

(** ** Package sfmatch *)

Section Sfmatch.

Context {Regexp : Type} {lib : GoLib Regexp}.
Variable arch : Arch.

(** primitives only *)
Definition typeParser (kind : Kind) (input : string) (v : Value)
  : result (option error * Value) :=
  let canSet := CanSet v in
  match kind with
  | Bool =>
      if negb canSet then Ok (None, v)
      else
        let '(b, err) := strconv.ParseBool input in
        match err with
        | Some e => Ok (Some e, v)
        | None => do v' <- SetBool v b; Ok (None, v')
        end
  | Int | Int8 | Int16 | Int32 | Int64 =>
      if negb canSet then Ok (None, v)
      else
        let '(i, err) := strconv.ParseInt input 10 64 in
        match err with
        | Some e => Ok (Some e, v)
        | None => do v' <- SetInt arch v i; Ok (None, v')
        end
  | Uint | Uint8 | Uint16 | Uint32 | Uint64 =>
      if negb canSet then Ok (None, v)
      else
        let '(u, err) := strconv.ParseUint input 10 64 in
        match err with
        | Some e => Ok (Some e, v)
        | None => do v' <- SetUint arch v u; Ok (None, v')
        end
  | Float32 | Float64 =>
      if negb canSet then Ok (None, v)
      else
        let '(f, err) := ParseFloat input 64 in
        match err with
        | Some e => Ok (Some e, v)
        | None => do v' <- SetFloat v f; Ok (None, v')
        end
  | String_ =>
      if negb canSet then Ok (None, v)
      else do v' <- SetString v input; Ok (None, v')
  | _ => Ok (Some ErrUnsupportedKind, v)
  end.

Record Match : Type := mkMatch {
  regex : Regexp;
  indices : list nat;
  kinds : list Kind;
  vtype : GoType
}.

(** What the loop of [CompileWithDelimiter] has built so far: the text in
    the [strings.Builder] and the two slices. *)
Record builder : Type := mkBuilder {
  b_regex : string;
  b_fields : list nat;
  b_kinds : list Kind
}.

(** The tag value the field is matched with: the [sfmatch] key when the tag
    has one, the whole tag otherwise. *)
Definition field_tag (ft : StructField) : string :=
  let '(tg, ok) := Tag_Lookup Unquote (Tag ft) "sfmatch" in
  if negb ok then Tag ft else tg.

(** The body of [for i := 0; i < n; i++], on the fields from index [i] on.
    It ends with the builder, or with the error of the early return. *)
Fixpoint compile_loop (delim : string) (fs : list StructField) (i : nat) (b : builder)
  : result (error + builder) :=
  match fs with
  | [] => Ok (inr b)
  | ft :: rest =>
      (* Check if the field is exported, which it is if PkgPath is empty. *)
      if negb (String.eqb (PkgPath ft) EmptyString) then compile_loop delim rest (S i) b
      else
        let tg := field_tag ft in
        (* Should we skip this field? Yes if it's a dash or is nothing. *)
        if String.eqb tg "-" || String.eqb tg EmptyString then compile_loop delim rest (S i) b
        else
          let fk := Type_Kind (Type_ ft) in
          do r <- typeParser fk EmptyString ZeroValue;
          if is_ErrUnsupportedKind (fst r)
          then Ok (inl (fmt_Errorf_w ("Failed to use field " ++ Name ft) ErrUnsupportedKind))
          else
            compile_loop delim rest (S i)
              {| b_regex := b_regex b ++ delim ++ tg;
                 b_fields := b_fields b ++ [i];
                 b_kinds := b_kinds b ++ [fk] |}
  end.

Definition CompileWithDelimiter (structure : interface) (delim : string)
  : result (option Match * option error) :=
  match TypeOf structure with
  | None => Panic "runtime error: invalid memory address or nil pointer dereference"
  | Some t =>
      (* If the given type is a pointer, then we should dereference that. *)
      do t <- (if Kind_eqb (Type_Kind t) Ptr then Type_Elem t else Ok t);
      do n <- Type_NumField t;
      do st <- compile_loop delim (firstn n (struct_fields t)) 0
                 {| b_regex := "(?mU)"; b_fields := []; b_kinds := [] |};
      match st with
      | inl err => Ok (None, Some err)
      | inr b =>
          (* Stringify the regex and try compiling it. *)
          match regexp_Compile (b_regex b) with
          | inr err => Ok (None, Some (errors_Wrap err "Failed to compile the regex"))
          | inl r =>
              (* Confirm that we have enough matching groups. *)
              if negb (Nat.eqb (NumSubexp r) (length (b_fields b)))
              then Ok (None, Some (errors_New "Mismatch field count and submatch count"))
              else Ok (Some {| regex := r; indices := b_fields b;
                               kinds := b_kinds b; vtype := t |}, None)
          end
      end
  end.

(** Compile compiles the structure into a regex delimited with [\s\S]*. *)
Definition Compile (structure : interface) : result (option Match * option error) :=
  CompileWithDelimiter structure "[\s\S]*".

Definition MustCompile (structure : interface) : result Match :=
  do r <- Compile structure;
  match r with
  | (_, Some err) => Panic (Error err)
  | (Some m, None) => Ok m
  | (None, None) => Panic "runtime error: invalid memory address or nil pointer dereference"
  end.

(** The struct Value [v] after the store a setter made through the Value
    of its field [j]. *)
Definition store_field (v : Value) (j : nat) (fv : Value) : Value :=
  match v, fv with
  | MkValue t addr ro (VStruct xs), MkValue _ _ _ x => MkValue t addr ro (VStruct (<[j:=x]> xs))
  | _, _ => v
  end.

(** The caller's pointer after the call: it points to what [v], the Value
    [Elem] made of it, holds now. *)
Definition store_back (value : interface) (v : Value) : interface :=
  match value, v with
  | Iface t (VPtr (Some _)), MkValue _ _ _ x => Iface t (VPtr (Some x))
  | _, _ => value
  end.

(** [for i, j := range m.indices], from position [i] on. *)
Fixpoint unmarshal_loop (ks : list Kind) (s : list string) (i : nat) (js : list nat)
    (v : Value) : result (Value * option error) :=
  match js with
  | [] => Ok (v, None)
  | j :: rest =>
      match ks !! i, s !! S i with
      | Some k, Some text =>
          do fv <- Value_Field v j;
          do r <- typeParser k text fv;
          let v' := store_field v j (snd r) in
          match fst r with
          | Some err => Ok (v', Some (errors_Wrap err ("Failed to parse field " ++ Itoa j)))
          | None => unmarshal_loop ks s (S i) rest v'
          end
      | _, _ => Panic "runtime error: index out of range"
      end
  end.

(** Unmarshal regex-matches the given data and unmarshals it into value. It
    does NOT type-check value, thus reflect will panic if the type mismatches.
    The result is the caller's value after the call and the returned error. *)
Definition Unmarshal (m : Match) (data : string) (value : interface)
  : result (interface * option error) :=
  match FindStringSubmatch (regex m) data with
  | None => Ok (value, Some (errors_New "No matches found"))
  | Some s =>
      do v <- Value_Elem (ValueOf value);
      do r <- unmarshal_loop (kinds m) s 0 (indices m) v;
      Ok (store_back value (fst r), snd r)
  end.

End Sfmatch.

Arguments Match Regexp : clear implicits.

(** ** A regexp engine

    An executable model of Go's [regexp] on ASCII text, for running the
    package on concrete input: the RE2 syntax of literals, [.], anchors,
    escapes and Perl classes, bracket classes, groups, flag groups,
    alternation and repetition, with the leftmost-first ("the match a
    backtracking engine finds first") semantics of [FindStringSubmatch].
    Named groups, Unicode classes, [\Q..\E], octal and hex escapes and POSIX
    bracket classes are not modelled: [Compile] refuses them with the code
    [ErrNotModelled], where Go accepts them. *)

Module regexp.

Inductive class_item : Type :=
| CRange (lo hi : N)                     (* lo <= byte <= hi *)
| CNotIn (ranges : list (N * N)).        (* a negated Perl class inside brackets *)

Inductive re : Type :=
| REmpty
| RChar (fold : bool) (c : ascii)
| RClass (fold neg : bool) (items : list class_item)
| RAny                                   (* any byte *)
| RAnyNotNL                              (* any byte but newline *)
| RBeginLine | REndLine | RBeginText | REndText
| RWordBoundary | RNoWordBoundary
| RCat (a b : re)
| RAlt (a b : re)
| RStar (greedy : bool) (a : re)
| RPlus (greedy : bool) (a : re)
| RQuest (greedy : bool) (a : re)
| RCap (i : nat) (a : re).

Definition code (c : ascii) : N := N_of_ascii c.

Definition in_range (x : N) (r : N * N) : bool := (fst r <=? x)%N && (x <=? snd r)%N.

Definition in_item (x : N) (it : class_item) : bool :=
  match it with
  | CRange lo hi => in_range x (lo, hi)
  | CNotIn rs => negb (existsb (in_range x) rs)
  end.

(** The other case of a letter; any other byte is its own. *)
Definition swap_case (x : N) : N :=
  if in_range x (65, 90)%N then (x + 32)%N
  else if in_range x (97, 122)%N then (x - 32)%N
  else x.

Definition class_matches (fold neg : bool) (items : list class_item) (x : N) : bool :=
  xorb neg (existsb (in_item x) items || (fold && existsb (in_item (swap_case x)) items)).

Definition char_matches (fold : bool) (c : ascii) (x : ascii) : bool :=
  Ascii.eqb c x || (fold && (swap_case (code x) =? code c)%N).

Definition is_word (x : option ascii) : bool :=
  match x with
  | None => false
  | Some c =>
      let n := code c in
      in_range n (48, 57)%N || in_range n (65, 90)%N || in_range n (97, 122)%N || (n =? 95)%N
  end.

Definition newline : ascii := ascii_of_nat 10.

(** ** Matching *)

(** Where a match attempt stands: the byte before the position, the text
    from the position on, the position, and the groups closed so far (the
    latest entry of a group is the one that counts). *)
Record mstate : Type := mkState {
  prev : option ascii;
  rest : list ascii;
  pos : nat;
  caps : list (nat * (nat * nat))
}.

Definition cont : Type := mstate -> option mstate.

Definition or_else (a : option mstate) (b : unit -> option mstate) : option mstate :=
  match a with
  | Some r => Some r
  | None => b tt
  end.

(** One byte accepted by [p]. *)
Definition step (p : ascii -> bool) (k : cont) (s : mstate) : option mstate :=
  match rest s with
  | x :: tl =>
      if p x then k {| prev := Some x; rest := tl; pos := S (pos s); caps := caps s |}
      else None
  | [] => None
  end.

Definition assert_at (b : bool) (k : cont) (s : mstate) : option mstate :=
  if b then k s else None.

(** The rounds of [body] after the first: greedy tries one more round
    first, lazy tries to go on without it first. A round that takes no byte
    is not taken. *)
Fixpoint star_loop (body : cont -> cont) (greedy : bool) (k : cont) (fuel : nat)
    (s : mstate) : option mstate :=
  match fuel with
  | O => k s
  | S fuel =>
      let more (_ : unit) :=
        body (fun s' => if Nat.eqb (pos s') (pos s) then None
                        else star_loop body greedy k fuel s') s in
      if greedy then or_else (more tt) (fun _ => k s)
      else or_else (k s) more
  end.

(** One round of [body] or more, as the program of [x+] runs: a first round
    that takes no byte ends the repetition, the rounds after a round that
    took bytes are those of [star_loop]. *)
Definition plus_loop (body : cont -> cont) (greedy : bool) (k : cont) (s : mstate)
  : option mstate :=
  body (fun s' => if Nat.eqb (pos s') (pos s) then k s'
                  else star_loop body greedy k (S (length (rest s'))) s') s.

Fixpoint run (r : re) (k : cont) (s : mstate) {struct r} : option mstate :=
  match r with
  | REmpty => k s
  | RChar fold c => step (char_matches fold c) k s
  | RClass fold neg items => step (fun x => class_matches fold neg items (code x)) k s
  | RAny => step (fun _ => true) k s
  | RAnyNotNL => step (fun x => negb (Ascii.eqb x newline)) k s
  | RBeginLine =>
      assert_at (match prev s with None => true | Some c => Ascii.eqb c newline end) k s
  | REndLine =>
      assert_at (match rest s with [] => true | c :: _ => Ascii.eqb c newline end) k s
  | RBeginText => assert_at (match prev s with None => true | Some _ => false end) k s
  | REndText => assert_at (match rest s with [] => true | _ :: _ => false end) k s
  | RWordBoundary => assert_at (xorb (is_word (prev s)) (is_word (head (rest s)))) k s
  | RNoWordBoundary => assert_at (negb (xorb (is_word (prev s)) (is_word (head (rest s))))) k s
  | RCat a b => run a (run b k) s
  | RAlt a b => or_else (run a k s) (fun _ => run b k s)
  | RStar greedy a =>
      (* the program of x* is that of (x+)? *)
      if greedy then or_else (plus_loop (run a) greedy k s) (fun _ => k s)
      else or_else (k s) (fun _ => plus_loop (run a) greedy k s)
  | RPlus greedy a => plus_loop (run a) greedy k s
  | RQuest greedy a =>
      if greedy then or_else (run a k s) (fun _ => k s)
      else or_else (k s) (fun _ => run a k s)
  | RCap i a =>
      run a (fun s' => k {| prev := prev s'; rest := rest s'; pos := pos s';
                            caps := (i, (pos s, pos s')) :: caps s' |}) s
  end.

(** The leftmost match: the first start position, from [s] on, at which
    [r] matches; group 0 is the whole match. *)
Fixpoint search (r : re) (fuel : nat) (s : mstate) : option mstate :=
  match run r (fun s' => Some {| prev := prev s'; rest := rest s'; pos := pos s';
                                 caps := (O, (pos s, pos s')) :: caps s' |}) s with
  | Some m => Some m
  | None =>
      match fuel, rest s with
      | S fuel, x :: tl =>
          search r fuel {| prev := Some x; rest := tl; pos := S (pos s); caps := [] |}
      | _, _ => None
      end
  end.

Fixpoint lookup_cap (i : nat) (cs : list (nat * (nat * nat))) : option (nat * nat) :=
  match cs with
  | [] => None
  | (j, se) :: tl => if Nat.eqb i j then Some se else lookup_cap i tl
  end.

Definition slice (data : list ascii) (se : nat * nat) : string :=
  string_of_list_ascii (firstn (snd se - fst se) (skipn (fst se) data)).

(** A compiled expression: the pattern, its tree and its number of groups. *)
Record Regexp : Type := mkRegexp {
  expr : string;
  prog : re;
  numSubexp : nat
}.

Definition FindStringSubmatch (r : Regexp) (data : string) : option (list string) :=
  let text := list_ascii_of_string data in
  match search (prog r) (length text)
          {| prev := None; rest := text; pos := O; caps := [] |} with
  | None => None
  | Some m =>
      Some (map (fun i => match lookup_cap i (caps m) with
                           | Some se => slice text se
                           | None => EmptyString
                           end) (seq 0 (S (numSubexp r))))
  end.

(** ** Parsing *)

Record flags : Type := mkFlags {
  FoldCase : bool;       (* i *)
  MultiLine : bool;      (* m: OneLine cleared *)
  DotNL : bool;          (* s *)
  NonGreedy : bool       (* U *)
}.

(** The flags [Compile] starts with ([syntax.Perl]). *)
Definition Perl : flags :=
  {| FoldCase := false; MultiLine := false; DotNL := false; NonGreedy := false |}.

Definition ErrMissingBracket := "missing closing ]".
Definition ErrMissingParen := "missing closing )".
Definition ErrUnexpectedParen := "unexpected )".
Definition ErrMissingRepeatArgument := "missing argument to repetition operator".
Definition ErrInvalidRepeatOp := "invalid nested repetition operator".
Definition ErrInvalidRepeatSize := "invalid repeat count".
Definition ErrInvalidEscape := "invalid escape sequence".
Definition ErrTrailingBackslash := "trailing backslash at end of expression".
Definition ErrInvalidCharRange := "invalid character class range".
Definition ErrInvalidPerlOp := "invalid or unsupported Perl syntax".
Definition ErrNotModelled := "syntax outside the model".

Definition perr (code : string) (at_ : list ascii) : error :=
  syntax_Error code (string_of_list_ascii at_).

Definition is_digit (c : ascii) : bool := in_range (code c) (48, 57)%N.
Definition is_octal (c : ascii) : bool := in_range (code c) (48, 55)%N.
Definition is_alnum (c : ascii) : bool :=
  is_digit c || in_range (code c) (65, 90)%N || in_range (code c) (97, 122)%N.

Definition perl_d : list (N * N) := [(48, 57)%N].
Definition perl_s : list (N * N) := [(9, 10)%N; (12, 13)%N; (32, 32)%N].
Definition perl_w : list (N * N) := [(48, 57)%N; (65, 90)%N; (95, 95)%N; (97, 122)%N].

(** [\d \D \s \S \w \W]: the ranges and whether the class is negated. *)
Definition perl_class (c : ascii) : option (list (N * N) * bool) :=
  if Ascii.eqb c "d" then Some (perl_d, false)
  else if Ascii.eqb c "D" then Some (perl_d, true)
  else if Ascii.eqb c "s" then Some (perl_s, false)
  else if Ascii.eqb c "S" then Some (perl_s, true)
  else if Ascii.eqb c "w" then Some (perl_w, false)
  else if Ascii.eqb c "W" then Some (perl_w, true)
  else None.

(** [parseEscape], after the backslash: the byte the escape stands for. *)
Definition parseEscape (t : list ascii) : error + (N * list ascii) :=
  match t with
  | [] => inl (perr ErrTrailingBackslash [])
  | c :: tl =>
      if Ascii.eqb c "a" then inr (7, tl)%N
      else if Ascii.eqb c "f" then inr (12, tl)%N
      else if Ascii.eqb c "n" then inr (10, tl)%N
      else if Ascii.eqb c "r" then inr (13, tl)%N
      else if Ascii.eqb c "t" then inr (9, tl)%N
      else if Ascii.eqb c "v" then inr (11, tl)%N
      else if Ascii.eqb c "x" || Ascii.eqb c "0" then inl (perr ErrNotModelled ["\"%char; c])
      else if in_range (code c) (49, 55)%N then
        match tl with
        | d :: _ => if is_octal d then inl (perr ErrNotModelled ["\"%char; c])
                    else inl (perr ErrInvalidEscape ["\"%char; c])
        | [] => inl (perr ErrInvalidEscape ["\"%char; c])
        end
      else if (128 <=? code c)%N then inl (perr ErrNotModelled ["\"%char; c])
      else if negb (is_alnum c) then inr (code c, tl)
      else inl (perr ErrInvalidEscape ["\"%char; c])
  end.

(** [parseClassChar]. *)
Definition parseClassChar (t whole : list ascii) : error + (N * list ascii) :=
  match t with
  | [] => inl (perr ErrMissingBracket whole)
  | c :: tl =>
      if Ascii.eqb c "\" then parseEscape tl
      else if (128 <=? code c)%N then inl (perr ErrNotModelled [c])
      else inr (code c, tl)
  end.

(** The loop of [parseClass], after "[" and the optional "^": the items up
    to the closing bracket and the text after it. *)
Fixpoint parseClass_loop (fuel : nat) (whole t : list ascii) (first : bool)
    (acc : list class_item) : error + (list class_item * list ascii) :=
  match fuel with
  | O => inl (perr ErrMissingBracket whole)
  | S fuel =>
      match t with
      | "]"%char :: tl =>
          if first then parseClass_loop fuel whole tl false (acc ++ [CRange 93 93])
          else inr (acc, tl)
      | "["%char :: ":"%char :: _ => inl (perr ErrNotModelled t)
      | "\"%char :: c :: tl =>
          match perl_class c with
          | Some (rs, false) => parseClass_loop fuel whole tl false (acc ++ map (fun r => CRange (fst r) (snd r)) rs)
          | Some (rs, true) => parseClass_loop fuel whole tl false (acc ++ [CNotIn rs])
          | None =>
              if Ascii.eqb c "p" || Ascii.eqb c "P" then inl (perr ErrNotModelled t)
              else class_range fuel whole t acc
          end
      | _ => class_range fuel whole t acc
      end
  end
with class_range (fuel : nat) (whole t : list ascii) (acc : list class_item)
    : error + (list class_item * list ascii) :=
  match fuel with
  | O => inl (perr ErrMissingBracket whole)
  | S fuel' =>
      match parseClassChar t whole with
      | inl e => inl e
      | inr (lo, t1) =>
          match t1 with
          | "-"%char :: c :: t2 =>
              if Ascii.eqb c "]" then parseClass_loop fuel' whole t1 false (acc ++ [CRange lo lo])
              else
                match parseClassChar (c :: t2) whole with
                | inl e => inl e
                | inr (hi, t3) =>
                    if (hi <? lo)%N then inl (perr ErrInvalidCharRange t)
                    else parseClass_loop fuel' whole t3 false (acc ++ [CRange lo hi])
                end
          | _ => parseClass_loop fuel' whole t1 false (acc ++ [CRange lo lo])
          end
      end
  end.

Fixpoint mk_cat (items : list re) : re :=
  match items with
  | [] => REmpty
  | [a] => a
  | a :: tl => RCat a (mk_cat tl)
  end.

Fixpoint mk_alt (branches : list re) : re :=
  match branches with
  | [] => REmpty
  | [a] => a
  | a :: tl => RAlt a (mk_alt tl)
  end.

(** The expression of a group: [alts] are the finished branches and [cur]
    the items of the branch being read, both latest first. *)
Definition finish (alts cur : list re) : re := mk_alt (rev (mk_cat (rev cur) :: alts)).

(** The loop of [parsePerlFlags], after "(?": the new flags, whether a
    group opens (":") and the text after the flags. *)
Fixpoint parse_flags (t : list ascii) (fl : flags) (sign sawFlag : bool)
  : option (flags * bool * list ascii) :=
  match t with
  | [] => None
  | c :: tl =>
      if Ascii.eqb c "i" then
        parse_flags tl {| FoldCase := sign; MultiLine := MultiLine fl;
                          DotNL := DotNL fl; NonGreedy := NonGreedy fl |} sign true
      else if Ascii.eqb c "m" then
        parse_flags tl {| FoldCase := FoldCase fl; MultiLine := sign;
                          DotNL := DotNL fl; NonGreedy := NonGreedy fl |} sign true
      else if Ascii.eqb c "s" then
        parse_flags tl {| FoldCase := FoldCase fl; MultiLine := MultiLine fl;
                          DotNL := sign; NonGreedy := NonGreedy fl |} sign true
      else if Ascii.eqb c "U" then
        parse_flags tl {| FoldCase := FoldCase fl; MultiLine := MultiLine fl;
                          DotNL := DotNL fl; NonGreedy := sign |} sign true
      else if Ascii.eqb c "-" then
        if sign then parse_flags tl fl false false else None
      else if Ascii.eqb c ":" || Ascii.eqb c ")" then
        if negb sign && negb sawFlag then None
        else Some (fl, Ascii.eqb c ":", tl)
      else None
  end.

(** [parseInt] of the repeat counts: digits without a leading zero. *)
Fixpoint read_digits (t : list ascii) (acc : nat) : nat * list ascii :=
  match t with
  | c :: tl =>
      if is_digit c then read_digits tl (10 * acc + N.to_nat (code c - 48))%nat
      else (acc, t)
  | [] => (acc, [])
  end.

Definition parseInt (t : list ascii) : option (nat * list ascii) :=
  match t with
  | c :: tl =>
      if negb (is_digit c) then None
      else if Ascii.eqb c "0" && match tl with d :: _ => is_digit d | [] => false end then None
      else Some (read_digits t 0)
  | [] => None
  end.

(** [parseRepeat], after the brace: the least count, the greatest (none for
    an open one) and the text after the closing brace. *)
Definition parseRepeat (t : list ascii) : option (nat * option nat * list ascii) :=
  match parseInt t with
  | None => None
  | Some (lo, t1) =>
      match t1 with
      | "}"%char :: t2 => Some (lo, Some lo, t2)
      | ","%char :: "}"%char :: t2 => Some (lo, None, t2)
      | ","%char :: t2 =>
          match parseInt t2 with
          | Some (hi, "}"%char :: t3) => Some (lo, Some hi, t3)
          | _ => None
          end
      | _ => None
      end
  end.

Fixpoint rep_cat (n : nat) (a tail : re) : re :=
  match n with
  | O => tail
  | S n => RCat a (rep_cat n a tail)
  end.

Fixpoint rep_opt (greedy : bool) (n : nat) (a : re) : re :=
  match n with
  | O => REmpty
  | S n => RQuest greedy (RCat a (rep_opt greedy n a))
  end.

Definition expand_repeat (lo : nat) (hi : option nat) (greedy : bool) (a : re) : re :=
  match hi with
  | None =>
      match lo with
      | O => RStar greedy a
      | S n => rep_cat n a (RPlus greedy a)
      end
  | Some hi => rep_cat lo a (rep_opt greedy (hi - lo) a)
  end.

(** [p.repeat]: the operator [mk] put on the latest item of the branch. *)
Definition repeat (mk : bool -> re -> re) (fl : flags) (op after : list ascii)
    (cur : list re) (lastRepeat : bool) : error + (list re * list ascii) :=
  let '(lazy, after) :=
    match after with
    | "?"%char :: tl => (true, tl)
    | _ => (false, after)
    end in
  if lastRepeat then inl (perr ErrInvalidRepeatOp op)
  else
    match cur with
    | [] => inl (perr ErrMissingRepeatArgument op)
    | a :: cur' => inr (mk (negb (xorb (NonGreedy fl) lazy)) a :: cur', after)
    end.

(** One operand that is not a group: the item and the text after it. *)
Definition parse_atom (fl : flags) (c : ascii) (tl : list ascii) : error + (re * list ascii) :=
  if Ascii.eqb c "[" then
    let '(neg, t1) :=
      match tl with
      | "^"%char :: t1 => (true, t1)
      | _ => (false, tl)
      end in
    match parseClass_loop (2 * length tl + 2) (c :: tl) t1 true [] with
    | inl e => inl e
    | inr (items, t2) => inr (RClass (FoldCase fl) neg items, t2)
    end
  else if Ascii.eqb c "\" then
    match tl with
    | [] => inl (perr ErrTrailingBackslash [c])
    | c2 :: t2 =>
        if Ascii.eqb c2 "A" then inr (RBeginText, t2)
        else if Ascii.eqb c2 "z" then inr (REndText, t2)
        else if Ascii.eqb c2 "b" then inr (RWordBoundary, t2)
        else if Ascii.eqb c2 "B" then inr (RNoWordBoundary, t2)
        else if Ascii.eqb c2 "C" || Ascii.eqb c2 "Q" || Ascii.eqb c2 "p" || Ascii.eqb c2 "P"
        then inl (perr ErrNotModelled [c; c2])
        else
          match perl_class c2 with
          | Some (rs, neg) =>
              inr (RClass false neg (map (fun r => CRange (fst r) (snd r)) rs), t2)
          | None =>
              match parseEscape tl with
              | inl e => inl e
              | inr (n, t3) => inr (RChar (FoldCase fl) (ascii_of_N n), t3)
              end
          end
    end
  else if Ascii.eqb c "." then inr (if DotNL fl then RAny else RAnyNotNL, tl)
  else if Ascii.eqb c "^" then inr (if MultiLine fl then RBeginLine else RBeginText, tl)
  else if Ascii.eqb c "$" then inr (if MultiLine fl then REndLine else REndText, tl)
  else if (128 <=? code c)%N then inl (perr ErrNotModelled [c])
  else inr (RChar (FoldCase fl) c, tl).

(** The loop of [syntax.Parse] on the text [t] of a group: it ends at the
    end of the text or before the ")" that closes the group, with the
    expression, the number of groups opened so far and the text left. *)
Fixpoint parse (fuel : nat) (whole : list ascii) (fl : flags) (ncap : nat)
    (t : list ascii) (alts cur : list re) (lastRepeat : bool)
  : error + (re * nat * list ascii) :=
  match fuel with
  | O => inl (perr ErrNotModelled whole)
  | S fuel =>
      match t with
      | [] => inr (finish alts cur, ncap, [])
      | c :: tl =>
          if Ascii.eqb c ")" then inr (finish alts cur, ncap, t)
          else if Ascii.eqb c "|" then
            parse fuel whole fl ncap tl (mk_cat (rev cur) :: alts) [] false
          else if Ascii.eqb c "(" then
            match tl with
            | "?"%char :: t2 =>
                match t2 with
                | "P"%char :: _ | "<"%char :: _ => inl (perr ErrNotModelled t)
                | _ =>
                    match parse_flags t2 fl true false with
                    | None => inl (perr ErrInvalidPerlOp t)
                    | Some (fl', false, t3) => parse fuel whole fl' ncap t3 alts cur false
                    | Some (fl', true, t3) =>
                        match parse fuel whole fl' ncap t3 [] [] false with
                        | inl e => inl e
                        | inr (r, ncap', ")"%char :: t4) =>
                            parse fuel whole fl ncap' t4 alts (r :: cur) false
                        | inr _ => inl (perr ErrMissingParen whole)
                        end
                    end
                end
            | _ =>
                match parse fuel whole fl (S ncap) tl [] [] false with
                | inl e => inl e
                | inr (r, ncap', ")"%char :: t4) =>
                    parse fuel whole fl ncap' t4 alts (RCap (S ncap) r :: cur) false
                | inr _ => inl (perr ErrMissingParen whole)
                end
            end
          else if Ascii.eqb c "*" || Ascii.eqb c "+" || Ascii.eqb c "?" then
            let mk := if Ascii.eqb c "*" then RStar
                      else if Ascii.eqb c "+" then RPlus else RQuest in
            match repeat mk fl [c] tl cur lastRepeat with
            | inl e => inl e
            | inr (cur', after) => parse fuel whole fl ncap after alts cur' true
            end
          else if Ascii.eqb c "{" then
            match parseRepeat tl with
            | None => parse fuel whole fl ncap tl alts (RChar (FoldCase fl) c :: cur) false
            | Some (lo, hi, after) =>
                if (1000 <? lo)%nat || (1000 <? default O hi)%nat || (default lo hi <? lo)%nat
                then inl (perr ErrInvalidRepeatSize t)
                else
                  match repeat (expand_repeat lo hi) fl [c] after cur lastRepeat with
                  | inl e => inl e
                  | inr (cur', after) => parse fuel whole fl ncap after alts cur' true
                  end
            end
          else
            match parse_atom fl c tl with
            | inl e => inl e
            | inr (a, after) => parse fuel whole fl ncap after alts (a :: cur) false
            end
      end
  end.

(** [regexp.Compile]. *)
Definition Compile (pattern : string) : Regexp + error :=
  let whole := list_ascii_of_string pattern in
  match parse (S (length whole)) whole Perl O whole [] [] false with
  | inl e => inr e
  | inr (r, n, []) => inl {| expr := pattern; prog := r; numSubexp := n |}
  | inr (_, _, _ :: _) => inr (perr ErrUnexpectedParen whole)
  end.

(** The flags in force after the flag group a pattern starts with. *)
Definition leading_flags (pattern : string) : option flags :=
  match list_ascii_of_string pattern with
  | "("%char :: "?"%char :: t =>
      match parse_flags t Perl true false with
      | Some (fl, false, _) => Some fl
      | _ => None
      end
  | _ => None
  end.

End regexp.

(** ** strconv.Unquote and strconv.ParseFloat

    Executable models on ASCII text, for running the package on concrete
    input. [Unquote] is modelled on a double-quoted string without Unicode
    escapes; [ParseFloat] on decimal text and the infinities and NaN, with
    the result rounded to nearest even. Hexadecimal floats and underscores
    are not modelled: the model refuses them, where Go accepts them. *)

Module strconv_model.

Definition hex_digit (c : ascii) : option N :=
  let n := regexp.code c in
  if regexp.in_range n (48, 57)%N then Some (n - 48)%N
  else if regexp.in_range n (97, 102)%N then Some (n - 87)%N
  else if regexp.in_range n (65, 70)%N then Some (n - 55)%N
  else None.

Definition simple_escape (c : ascii) : option N :=
  if Ascii.eqb c "a" then Some 7%N
  else if Ascii.eqb c "b" then Some 8%N
  else if Ascii.eqb c "f" then Some 12%N
  else if Ascii.eqb c "n" then Some 10%N
  else if Ascii.eqb c "r" then Some 13%N
  else if Ascii.eqb c "t" then Some 9%N
  else if Ascii.eqb c "v" then Some 11%N
  else if Ascii.eqb c "\" then Some 92%N
  else if Ascii.eqb c dquote then Some 34%N
  else None.

(** The text of a double-quoted string after its opening quote. *)
Fixpoint unquote_body (t : list ascii) : option string :=
  match t with
  | [] => None
  | c :: tl =>
      if Ascii.eqb c dquote then
        match tl with
        | [] => Some EmptyString
        | _ :: _ => None
        end
      else if Ascii.eqb c regexp.newline || (128 <=? regexp.code c)%N then None
      else if Ascii.eqb c "\" then
        match tl with
        | [] => None
        | e :: tl2 =>
            match simple_escape e with
            | Some n => option_map (String (ascii_of_N n)) (unquote_body tl2)
            | None =>
                if Ascii.eqb e "x" then
                  match tl2 with
                  | h1 :: h2 :: tl3 =>
                      match hex_digit h1, hex_digit h2 with
                      | Some a, Some b =>
                          option_map (String (ascii_of_N (16 * a + b))) (unquote_body tl3)
                      | _, _ => None
                      end
                  | _ => None
                  end
                else None
            end
        end
      else option_map (String c) (unquote_body tl)
  end.

Definition Unquote (s : string) : option string :=
  match list_ascii_of_string s with
  | q :: tl => if Ascii.eqb q dquote then unquote_body tl else None
  | [] => None
  end.

(** Decimal digits: the number they spell on top of [acc], how many they
    are, and the text after them. *)
Fixpoint digits (t : list ascii) (acc : Z) (n : Z) : Z * Z * list ascii :=
  match t with
  | c :: tl =>
      if regexp.is_digit c then digits tl (10 * acc + Z.of_N (regexp.code c - 48)) (n + 1)
      else (acc, n, t)
  | [] => (acc, n, [])
  end.

Definition sign_of (t : list ascii) : bool * list ascii :=
  match t with
  | "+"%char :: tl => (false, tl)
  | "-"%char :: tl => (true, tl)
  | _ => (false, t)
  end.

(** [readFloat] on decimal text: the sign, the digits of the mantissa as
    an integer and the power of ten that goes with it. *)
Definition readFloat (s : string) : option (bool * Z * Z) :=
  let '(neg, t) := sign_of (list_ascii_of_string s) in
  let '(ip, n1, t) := digits t 0 0 in
  let '(m, n2, t) :=
    match t with
    | "."%char :: tl => digits tl ip 0
    | _ => (ip, 0, t)
    end in
  if n1 + n2 =? 0 then None
  else
    match t with
    | [] => Some (neg, m, - n2)
    | c :: tl =>
        if Ascii.eqb c "e" || Ascii.eqb c "E" then
          let '(eneg, tl) := sign_of tl in
          let '(e, n3, tl) := digits tl 0 0 in
          match tl with
          | [] => if n3 =? 0 then None
                  else Some (neg, m, (if eneg then - Z.min e 10000 else Z.min e 10000) - n2)
          | _ :: _ => None
          end
        else None
    end.

Fixpoint lower_string (s : string) : string :=
  match s with
  | EmptyString => EmptyString
  | String c tl =>
      let n := regexp.code c in
      String (if regexp.in_range n (65, 90)%N then ascii_of_N (n + 32) else c) (lower_string tl)
  end.

(** [special]: the infinities and NaN, in any case. *)
Definition special (s : string) : option spec_float :=
  let l := lower_string s in
  if String.eqb l "inf" || String.eqb l "+inf" || String.eqb l "infinity" || String.eqb l "+infinity"
  then Some (S754_infinity false)
  else if String.eqb l "-inf" || String.eqb l "-infinity" then Some (S754_infinity true)
  else if String.eqb l "nan" then Some S754_nan
  else None.

(** The float of precision [prec] and exponent bound [emax] nearest to
    [m * 10 ^ e], ties to even. *)
Definition round_decimal (prec emax : Z) (neg : bool) (m e : Z) : spec_float :=
  match m with
  | Zpos p =>
      if 0 <=? e then binary_normalize prec emax (cond_Zopp neg (m * 10 ^ e)) 0 neg
      else SFdiv prec emax (S754_finite neg p 0) (S754_finite false (Z.to_pos (10 ^ (- e))) 0)
  | _ => S754_zero neg
  end.

Definition ParseFloat (s : string) (bitSize : Z) : spec_float * option error :=
  match special s with
  | Some f => (f, None)
  | None =>
      match readFloat s with
      | None => (S754_zero false, Some (NumError "ParseFloat" s ErrSyntax))
      | Some (neg, m, e) =>
          let f := if bitSize =? 32 then round_decimal 24 128 neg m e
                   else round_decimal 53 1024 neg m e in
          match f with
          | S754_infinity _ => (f, Some (NumError "ParseFloat" s ErrRange))
          | _ => (f, None)
          end
      end
  end.

End strconv_model.

(** A submatch slice holds the whole match and one entry for each group. *)
Lemma FindStringSubmatch_has_length (r : regexp.Regexp) (data : string) (s : list string) :
  regexp.FindStringSubmatch r data = Some s -> length s = S (regexp.numSubexp r).
Proof.
  unfold regexp.FindStringSubmatch. intros H.
  destruct (regexp.search _ _ _); [injection H as <- | discriminate].
  cbn [length]. rewrite List.length_map, List.length_seq. reflexivity.
Qed.

(** Go's library as modelled above. *)
#[export] Instance go_lib : GoLib regexp.Regexp := {|
  regexp_Compile := regexp.Compile;
  NumSubexp := regexp.numSubexp;
  FindStringSubmatch := regexp.FindStringSubmatch;
  FindStringSubmatch_length := FindStringSubmatch_has_length;
  ParseFloat := strconv_model.ParseFloat;
  Unquote := strconv_model.Unquote
|}.

(** ** The vocabulary of the specification *)

(** A settable variable of kind [k] holding [x]. *)
Definition variable (k : Kind) (x : GoValue) : Value := MkValue (TOther k) true false x.

Section Vocabulary.

Context {Regexp : Type} {lib : GoLib Regexp}.
Variable arch : Arch.

(** The primitive kinds: boolean, any-width signed and unsigned integer,
    any-width floating point, text. *)
Definition supported (k : Kind) : bool :=
  match k with
  | Bool
  | Int | Int8 | Int16 | Int32 | Int64
  | Uint | Uint8 | Uint16 | Uint32 | Uint64
  | Float32 | Float64
  | String_ => true
  | _ => false
  end.

Definition field_kind (ft : StructField) : Kind := Type_Kind (Type_ ft).

(** A field that takes part in matching: externally visible, with a
    fragment that is neither the lone dash nor empty. *)
Definition recognized (ft : StructField) : bool :=
  exported ft &&
  negb (String.eqb (field_tag ft) "-" || String.eqb (field_tag ft) EmptyString).

(** The recognized fields of [fs] with their positions, the first field
    of [fs] being at position [i]. *)
Fixpoint recognized_from (i : nat) (fs : list StructField) : list (nat * StructField) :=
  match fs with
  | [] => []
  | ft :: rest =>
      if recognized ft then (i, ft) :: recognized_from (S i) rest
      else recognized_from (S i) rest
  end.

(** The composite pattern: the mode prefix, then the delimiter and the
    fragment of every recognized field in order. *)
Definition composite (delim : string) (fs : list StructField) : string :=
  fold_left (fun acc p => acc ++ delim ++ field_tag (snd p)) (recognized_from 0 fs) "(?mU)".

(** A struct shape handed to compile as a struct or as a pointer to one. *)
Definition of_shape (ptr : bool) (fs : list StructField) : GoType :=
  if ptr then TPtr (TStruct fs) else TStruct fs.

(** The builder after the loop has taken the recognized fields [rs]. *)
Definition build (delim : string) (rs : list (nat * StructField)) (b : builder) : builder :=
  fold_left (fun b p =>
    {| b_regex := b_regex b ++ delim ++ field_tag (snd p);
       b_fields := b_fields b ++ [fst p];
       b_kinds := b_kinds b ++ [field_kind (snd p)] |}) rs b.

Definition builder0 : builder := {| b_regex := "(?mU)"; b_fields := []; b_kinds := [] |}.

(** The text the loop hands to [regexp.Compile], when it gets that far. *)
Definition composite_pattern (delim : string) (fs : list StructField) : option string :=
  match compile_loop arch delim fs 0 builder0 with
  | Ok (inr b) => Some (b_regex b)
  | _ => None
  end.

(** The value [typeParser] stores in a settable variable of kind [k] for
    the text [text], or the error it returns. *)
Definition convert (k : Kind) (text : string) : result (error + GoValue) :=
  do r <- typeParser arch k text (MkValue (TOther k) true false VOther);
  match r with
  | (Some e, _) => Ok (inl e)
  | (None, MkValue _ _ _ x) => Ok (inr x)
  | (None, ZeroValue) => Panic "unreachable"
  end.

(** The conversion of the text captured for the recognized field number
    [i] of the matcher, [s] being the submatches. *)
Definition conversion (m : Match Regexp) (s : list string) (i : nat) : option (result (error + GoValue)) :=
  match kinds m !! i, s !! S i with
  | Some k, Some text => Some (convert k text)
  | _, _ => None
  end.

(** Field [j] of the struct a destination points to. *)
Definition dest_field (value : interface) (j : nat) : option GoValue :=
  match value with
  | Iface _ (VPtr (Some (VStruct xs))) => xs !! j
  | _ => None
  end.

(** A destination that points to a struct of shape [fs] holding [xs]. *)
Definition pointer_to (fs : list StructField) (xs : list GoValue) : interface :=
  Iface (TPtr (TStruct fs)) (VPtr (Some (VStruct xs))).

(** [typeParser] returns a conversion error and stores nothing. *)
Definition conversion_fails (k : Kind) (text : string) (x : GoValue) : Prop :=
  exists e : error, typeParser arch k text (variable k x) = Ok (Some e, variable k x).

End Vocabulary.

(** ** Base-10 text *)

(** The number the decimal digits of [s] spell on top of [acc]; none when
    [s] has a byte that is not a decimal digit. *)
Fixpoint digits_value (s : string) (acc : Z) : option Z :=
  match s with
  | EmptyString => Some acc
  | String ch rest =>
      let c := strconv.byte_of ch in
      if (48 <=? c) && (c <=? 57) then digits_value rest (10 * acc + (c - 48))
      else None
  end.

(** Unsigned base-10 text: one decimal digit or more and nothing else. *)
Definition decimal (s : string) : option Z :=
  match s with
  | EmptyString => None
  | _ => digits_value s 0
  end.

(** Signed base-10 text: an optional sign before unsigned text. *)
Definition signed_decimal (s : string) : option Z :=
  match s with
  | String c rest =>
      if Ascii.eqb c "+" then decimal rest
      else if Ascii.eqb c "-" then option_map Z.opp (decimal rest)
      else decimal s
  | EmptyString => None
  end.

(** How [ParseUint] fails: no value with a syntax error, or the greatest
    value with a range error. *)
Definition uint_failure (fn s0 : string) (r : Z * option error) : Prop :=
  r = (0, Some (NumError fn s0 ErrSyntax)) \/
  r = (18446744073709551615, Some (NumError fn s0 ErrRange)).

(** What [ParseInt] makes of the result of [ParseUint] on the text after
    the sign. *)
Definition ParseInt_finish (s0 : string) (neg : bool) (r : Z * option error)
  : Z * option error :=
  let '(un, err) := r in
  match err with
  | Some (NumError _ _ ErrRange) | None =>
      let cutoff := 2 ^ (64 - 1) in
      if negb neg && (cutoff <=? un) then (cutoff - 1, Some (NumError "ParseInt" s0 ErrRange))
      else if neg && (cutoff <? un) then (- cutoff, Some (NumError "ParseInt" s0 ErrRange))
      else (if neg then - un else un, None)
  | Some _ => (0, Some (NumError "ParseInt" s0 ErrSyntax))
  end.

(** The integer kinds, and the width of a field of each. *)
Definition signed_kinds : list Kind := [Int; Int8; Int16; Int32; Int64].
Definition unsigned_kinds : list Kind := [Uint; Uint8; Uint16; Uint32; Uint64].

Definition kind_bits (arch : Arch) (k : Kind) : Z :=
  match int_width arch k, uint_width arch k with
  | Some w, _ | None, Some w => w
  | None, None => 0
  end.

(** ** The conversion of a captured text *)

Section Conversion.

Context {Regexp : Type} {lib : GoLib Regexp}.
Variable arch : Arch.

(** The value a captured text stands for in a field of kind [k], or the
    error of its parse: a boolean literal as [strconv.ParseBool] reads it;
    a base-10 integer of 64 bits as [strconv.ParseInt] and
    [strconv.ParseUint] read it, reduced to the width of the field; a float
    of 64 bits as [strconv.ParseFloat] reads it, rounded to 32 bits for a
    float32 field; the text itself for a string. No other kind has one. *)
Definition primitive_conversion (k : Kind) (text : string) : option (error + GoValue) :=
  match k with
  | Bool =>
      Some match strconv.ParseBool text with
           | (b, None) => inr (VBool b)
           | (_, Some e) => inl e
           end
  | Int | Int8 | Int16 | Int32 | Int64 =>
      Some match strconv.ParseInt text 10 64 with
           | (i, None) => inr (VInt (wrap_signed (kind_bits arch k) i))
           | (_, Some e) => inl e
           end
  | Uint | Uint8 | Uint16 | Uint32 | Uint64 =>
      Some match strconv.ParseUint text 10 64 with
           | (u, None) => inr (VUint (wrap_unsigned (kind_bits arch k) u))
           | (_, Some e) => inl e
           end
  | Float32 =>
      Some match ParseFloat text 64 with
           | (f, None) => inr (VFloat (to_float32 f))
           | (_, Some e) => inl e
           end
  | Float64 =>
      Some match ParseFloat text 64 with
           | (f, None) => inr (VFloat f)
           | (_, Some e) => inl e
           end
  | String_ => Some (inr (VString text))
  | _ => None
  end.

(** The conversion of the text of group [n + 1] of the submatches [s] to
    the kind of the recognized field number [n] of the matcher. *)
Definition captured_conversion (m : Match Regexp) (s : list string) (n : nat)
  : option (error + GoValue) :=
  match kinds m !! n, s !! S n with
  | Some k, Some text => primitive_conversion k text
  | _, _ => None
  end.

(** What follows the mode prefix in the composite pattern: the delimiter
    and the fragment of every recognized field in order. *)
Definition pattern_body (delim : string) (fs : list StructField) : string :=
  fold_left (fun acc p => acc ++ delim ++ field_tag (snd p)) (recognized_from 0 fs) EmptyString.

End Conversion.

(** ** Shapes and inputs of the examples *)

Definition quoted (s : string) : string := String dquote (s ++ String dquote EmptyString).

(** The struct tag [sfmatch:"frag"]. *)
Definition sfmatch_tag (frag : string) : string := "sfmatch:" ++ quoted frag.

(** An exported field, and an unexported one of package [sfmatch]. *)
Definition field (name tag : string) (t : GoType) : StructField :=
  {| Name := name; PkgPath := EmptyString; Tag := tag; Type_ := t |}.

Definition unexported_field (name tag : string) (t : GoType) : StructField :=
  {| Name := name; PkgPath := "sfmatch"; Tag := tag; Type_ := t |}.

Definition lines (ls : list string) : string :=
  fold_right (fun l acc => l ++ String regexp.newline acc) EmptyString ls.

(** The scenario of the specification: three fields of the [opusenc]
    struct of the tests, and three lines of the program's output. *)
Definition opusenc_shape : list StructField :=
  [ field "Encoded" (sfmatch_tag "Encoded: (.+)") (TOther String_);
    field "WroteBytes" "Wrote: (\d+) bytes" (TOther Uint64);
    field "Overhead" "Overhead: (.+)% \(container\+metadata\)" (TOther Float32) ].

Definition opusenc_zero : list GoValue :=
  [ VString EmptyString; VUint 0; VFloat (S754_zero false) ].

Definition opusenc_output : string :=
  lines [ "Encoded: 4 minutes";
          "Wrote: 3853633 bytes, 13582 packets";
          "Overhead: 3.39% (container+metadata)" ].

(** [struct { X struct{} `-` }]: an unsupported kind with the skip tag. *)
Definition skipped_struct_shape : list StructField :=
  [ field "X" "-" (TStruct []) ].

(** [struct { UnsupportedType struct{} `sfmatch:"a"` }], of the tests. *)
Definition panicpls_shape : list StructField :=
  [ field "UnsupportedType" (sfmatch_tag "a") (TStruct []) ].

(** [struct { Field string `sfmatch:"(astolfo)"` }], of the tests. *)
Definition nomatch_shape : list StructField :=
  [ field "Field" (sfmatch_tag "(astolfo)") (TOther String_) ].

(** [struct { A string `sfmatch:"(a)"` }]. *)
Definition letter_shape : list StructField :=
  [ field "A" (sfmatch_tag "(a)") (TOther String_) ].

(** [struct { a string }], in another package's eyes. *)
Definition hidden_shape : list StructField :=
  [ unexported_field "a" EmptyString (TOther String_) ].

(** [struct { N int8 `sfmatch:"(\\d+)$"` }]. *)
Definition int8_shape : list StructField :=
  [ field "N" (sfmatch_tag "(\\d+)$") (TOther Int8) ].

(** [struct { Skip string `-`; N int `(\d+)`; B bool `(\w+)`; S string `(\w+)` }]. *)
Definition mixed_shape : list StructField :=
  [ field "Skip" "-" (TOther String_);
    field "N" "(\d+)" (TOther Int);
    field "B" "(\w+)" (TOther Bool);
    field "S" "(\w+)" (TOther String_) ].

Definition mixed_zero : list GoValue :=
  [ VString EmptyString; VInt 0; VBool false; VString EmptyString ].

(** [struct { B bool; F float64; G float32; N int8; U uint }] with the
    fragments as whole tags, its values before unmarshal and a line of
    input whose last word is no unsigned integer. *)
Definition typed_shape : list StructField :=
  [ field "B" "(\w+)\b" (TOther Bool);
    field "F" "([\d.]+) " (TOther Float64);
    field "G" "([\d.]+) " (TOther Float32);
    field "N" "(\d+)\b" (TOther Int8);
    field "U" "(\S+)$" (TOther Uint) ].

Definition typed_zero : list GoValue :=
  [ VBool false; VFloat (S754_zero false); VFloat (S754_zero false); VInt 0; VUint 7 ].

Definition typed_input : string := "true 2.5 0.1 30 -1".

(** [struct { A string `sfmatch:"(?i)(a)"` }]: the fragment carries a flag
    group of its own. *)
Definition folded_shape : list StructField :=
  [ field "A" (sfmatch_tag "(?i)(a)") (TOther String_) ].

(** The matchers of the examples, compiled with the modelled library for
    a 64-bit target: what [MustCompile] returns for a nil pointer to the
    struct. *)
Definition no_matcher : Match regexp.Regexp :=
  {| regex := {| regexp.expr := EmptyString; regexp.prog := regexp.REmpty;
                 regexp.numSubexp := 0 |};
     indices := []; kinds := []; vtype := TOther Invalid |}.

Definition must (r : result (option (Match regexp.Regexp) * option error)) : Match regexp.Regexp :=
  match r with
  | Ok (Some m, _) => m
  | _ => no_matcher
  end.

Definition compiled (fs : list StructField) : Match regexp.Regexp :=
  must (Compile (lib := go_lib) Arch64 (Iface (TPtr (TStruct fs)) (VPtr None))).

Definition opusenc_matcher : Match regexp.Regexp := Eval vm_compute in compiled opusenc_shape.
Definition skipped_struct_matcher : Match regexp.Regexp :=
  Eval vm_compute in compiled skipped_struct_shape.
Definition letter_matcher : Match regexp.Regexp := Eval vm_compute in compiled letter_shape.
Definition nomatch_matcher : Match regexp.Regexp := Eval vm_compute in compiled nomatch_shape.
Definition int8_matcher : Match regexp.Regexp := Eval vm_compute in compiled int8_shape.
Definition mixed_matcher : Match regexp.Regexp := Eval vm_compute in compiled mixed_shape.
Definition typed_matcher : Match regexp.Regexp := Eval vm_compute in compiled typed_shape.
Definition folded_matcher : Match regexp.Regexp := Eval vm_compute in compiled folded_shape.

(** ** The outcome of compilation *)

Section Outcome.

Context {Regexp : Type} {lib : GoLib Regexp}.

(** The first of the recognized fields [rs] whose kind is not supported. *)
Fixpoint first_unsupported_field (rs : list (nat * StructField)) : option StructField :=
  match rs with
  | [] => None
  | (_, ft) :: tl =>
      if supported (field_kind ft) then first_unsupported_field tl else Some ft
  end.

(** What compilation returns for the struct shape [fs]: the error of the
    first recognized field of unsupported kind, else the error of
    [regexp.Compile] on the composite pattern, else the error of the group
    count, else the matcher of the recognized fields. *)
Definition compile_outcome (delim : string) (fs : list StructField)
  : option (Match Regexp) * option error :=
  let rs := recognized_from 0 fs in
  match first_unsupported_field rs with
  | Some ft => (None, Some (fmt_Errorf_w ("Failed to use field " ++ Name ft) ErrUnsupportedKind))
  | None =>
      match regexp_Compile (composite delim fs) with
      | inr e => (None, Some (errors_Wrap e "Failed to compile the regex"))
      | inl r =>
          if Nat.eqb (NumSubexp r) (length rs)
          then (Some {| regex := r; indices := map fst rs;
                        kinds := map (fun p => field_kind (snd p)) rs;
                        vtype := TStruct fs |}, None)
          else (None, Some (errors_New "Mismatch field count and submatch count"))
      end
  end.

(** What the loop needs of each position from [i] on: a recognized field
    of the struct with the kind the matcher holds, and a captured text. *)
Definition positions_ok (m : Match Regexp) (s : list string) (fs : list StructField)
    (i : nat) (js : list nat) : Prop :=
  forall n j : nat,
    js !! n = Some j ->
    exists (ft : StructField) (text : string),
      fs !! j = Some ft /\ recognized ft = true /\
      kinds m !! (i + n)%nat = Some (field_kind ft) /\
      supported (field_kind ft) = true /\ s !! S (i + n) = Some text.

End Outcome.

(** The family of kinds one setter of [reflect.Value] accepts. *)
Inductive family : Type := FBool | FInt | FUint | FFloat | FString.

Definition family_of (k : Kind) : option family :=
  match k with
  | Bool => Some FBool
  | Int | Int8 | Int16 | Int32 | Int64 => Some FInt
  | Uint | Uint8 | Uint16 | Uint32 | Uint64 | Uintptr => Some FUint
  | Float32 | Float64 => Some FFloat
  | String_ => Some FString
  | _ => None
  end.

(** A text without a double quote. *)
Fixpoint no_quote (s : string) : bool :=
  match s with
  | EmptyString => true
  | String c rest => negb (Ascii.eqb c dquote) && no_quote rest
  end.

(** * Properties *)

(** ** Compilation *)

Section CompileFacts.

Context {Regexp : Type} {lib : GoLib Regexp}.
Variable arch : Arch.

(** The test [CompileWithDelimiter] makes of a kind: [typeParser] on the
    zero Value never stores, so it tells whether the kind is supported. *)
Lemma typeParser_zero (k : Kind) :
  typeParser arch k EmptyString ZeroValue =
  Ok (if supported k then None else Some ErrUnsupportedKind, ZeroValue).
Proof. destruct k; reflexivity. Qed.

Lemma recognized_spec (ft : StructField) :
  recognized ft = true <->
  PkgPath ft = EmptyString /\ field_tag ft <> "-" /\ field_tag ft <> EmptyString.
Proof.
  unfold recognized, exported.
  rewrite andb_true_iff, negb_true_iff, orb_false_iff.
  rewrite String.eqb_eq, !String.eqb_neq. tauto.
Qed.

Lemma compile_loop_unfold (delim : string) (ft : StructField) (rest : list StructField)
    (i : nat) (b : builder) :
  compile_loop arch delim (ft :: rest) i b =
  if recognized ft then
    if supported (field_kind ft)
    then compile_loop arch delim rest (S i) (build delim [(i, ft)] b)
    else Ok (inl (fmt_Errorf_w ("Failed to use field " ++ Name ft) ErrUnsupportedKind))
  else compile_loop arch delim rest (S i) b.
Proof.
  cbn [compile_loop]. unfold recognized, exported.
  destruct (String.eqb (PkgPath ft) EmptyString); cbn [negb andb]; [| reflexivity].
  destruct (String.eqb (field_tag ft) "-" || String.eqb (field_tag ft) EmptyString);
    cbn [negb]; [reflexivity |].
  fold (field_kind ft). rewrite typeParser_zero. cbn [rbind fst].
  destruct (supported (field_kind ft)); reflexivity.
Qed.

(** The loop succeeds when every recognized field has a supported kind. *)
Lemma compile_loop_ok (delim : string) (fs : list StructField) :
  forall (i : nat) (b : builder),
    forallb (fun p => supported (field_kind (snd p))) (recognized_from i fs) = true ->
    compile_loop arch delim fs i b = Ok (inr (build delim (recognized_from i fs) b)).
Proof.
  induction fs as [| ft rest IH]; intros i b Hall; [reflexivity |].
  rewrite compile_loop_unfold. cbn [recognized_from] in *.
  destruct (recognized ft).
  - cbn [forallb snd] in Hall. apply andb_true_iff in Hall as [Hk Hrest].
    rewrite Hk. rewrite IH by exact Hrest. reflexivity.
  - apply IH, Hall.
Qed.

(** The loop returns at the first recognized field of unsupported kind,
    with an error that names it. *)
Lemma compile_loop_err (delim : string) (fs : list StructField) :
  forall (i : nat) (b : builder) (rs1 rs2 : list (nat * StructField))
         (j : nat) (ft : StructField),
    recognized_from i fs = (rs1 ++ (j, ft) :: rs2)%list ->
    forallb (fun p => supported (field_kind (snd p))) rs1 = true ->
    supported (field_kind ft) = false ->
    compile_loop arch delim fs i b =
    Ok (inl (fmt_Errorf_w ("Failed to use field " ++ Name ft) ErrUnsupportedKind)).
Proof.
  induction fs as [| g rest IH]; intros i b rs1 rs2 j ft E H1 H2.
  - destruct rs1; discriminate.
  - rewrite compile_loop_unfold. cbn [recognized_from] in E.
    destruct (recognized g).
    + destruct rs1 as [| [j1 g1] rs1].
      * injection E as <- <- _. rewrite H2. reflexivity.
      * injection E as <- <- E. cbn [forallb snd] in H1.
        apply andb_true_iff in H1 as [Hk H1]. rewrite Hk.
        eapply IH; eassumption.
    + eapply IH; eassumption.
Qed.

(** A list of recognized fields has all kinds supported, or a first one
    that is not. *)
Lemma first_unsupported (rs : list (nat * StructField)) :
  forallb (fun p => supported (field_kind (snd p))) rs = false ->
  exists (rs1 rs2 : list (nat * StructField)) (j : nat) (ft : StructField),
    rs = (rs1 ++ (j, ft) :: rs2)%list /\
    forallb (fun p => supported (field_kind (snd p))) rs1 = true /\
    supported (field_kind ft) = false.
Proof.
  induction rs as [| [j ft] rs IH]; intros H; [discriminate |].
  cbn [forallb snd] in H. destruct (supported (field_kind ft)) eqn:Hk.
  - destruct (IH H) as (rs1 & rs2 & j' & g & -> & H1 & H2).
    exists ((j, ft) :: rs1), rs2, j', g. cbn [forallb snd]. rewrite Hk, H1. auto.
  - exists [], rs, j, ft. auto.
Qed.

Lemma build_regex (delim : string) (rs : list (nat * StructField)) :
  forall b : builder,
    b_regex (build delim rs b) =
    fold_left (fun acc p => acc ++ delim ++ field_tag (snd p)) rs (b_regex b).
Proof. induction rs as [| p rs IH]; intros b; [reflexivity | apply IH]. Qed.

Lemma build_fields (delim : string) (rs : list (nat * StructField)) :
  forall b : builder, b_fields (build delim rs b) = (b_fields b ++ map fst rs)%list.
Proof.
  induction rs as [| p rs IH]; intros b; cbn [map].
  - symmetry. apply app_nil_r.
  - unfold build in *. cbn [fold_left]. rewrite IH. cbn [b_fields].
    rewrite <- app_assoc. reflexivity.
Qed.

Lemma build_kinds (delim : string) (rs : list (nat * StructField)) :
  forall b : builder,
    b_kinds (build delim rs b) = (b_kinds b ++ map (fun p => field_kind (snd p)) rs)%list.
Proof.
  induction rs as [| p rs IH]; intros b; cbn [map].
  - symmetry. apply app_nil_r.
  - unfold build in *. cbn [fold_left]. rewrite IH. cbn [b_kinds].
    rewrite <- app_assoc. reflexivity.
Qed.

Lemma build_composite (delim : string) (fs : list StructField) :
  b_regex (build delim (recognized_from 0 fs) builder0) = composite delim fs.
Proof. rewrite build_regex. reflexivity. Qed.

(** [CompileWithDelimiter] on a struct shape, after the reflection. *)
Lemma CompileWithDelimiter_shape (ptr : bool) (fs : list StructField) (x : GoValue)
    (delim : string) :
  CompileWithDelimiter arch (Iface (of_shape ptr fs) x) delim =
  do st <- compile_loop arch delim fs 0 builder0;
  match st with
  | inl err => Ok (None, Some err)
  | inr b =>
      match regexp_Compile (b_regex b) with
      | inr err => Ok (None, Some (errors_Wrap err "Failed to compile the regex"))
      | inl r =>
          if negb (Nat.eqb (NumSubexp r) (length (b_fields b)))
          then Ok (None, Some (errors_New "Mismatch field count and submatch count"))
          else Ok (Some {| regex := r; indices := b_fields b;
                           kinds := b_kinds b; vtype := TStruct fs |}, None)
      end
  end.
Proof.
  unfold CompileWithDelimiter, builder0.
  destruct ptr; cbn; rewrite firstn_all; reflexivity.
Qed.

(** What a matcher compiled from the shape [fs] holds. *)
Lemma compiled_inv (ptr : bool) (fs : list StructField) (x : GoValue) (delim : string)
    (m : Match Regexp) (oe : option error) :
  CompileWithDelimiter arch (Iface (of_shape ptr fs) x) delim = Ok (Some m, oe) ->
  oe = None /\
  forallb (fun p => supported (field_kind (snd p))) (recognized_from 0 fs) = true /\
  regexp_Compile (composite delim fs) = inl (regex m) /\
  NumSubexp (regex m) = length (recognized_from 0 fs) /\
  indices m = map fst (recognized_from 0 fs) /\
  kinds m = map (fun p => field_kind (snd p)) (recognized_from 0 fs) /\
  vtype m = TStruct fs.
Proof.
  rewrite CompileWithDelimiter_shape.
  destruct (forallb (fun p => supported (field_kind (snd p))) (recognized_from 0 fs)) eqn:Hall.
  - rewrite compile_loop_ok by exact Hall. cbn [rbind].
    rewrite build_composite, build_fields, build_kinds. cbn [builder0 b_fields b_kinds app].
    destruct (regexp_Compile (composite delim fs)) as [r | err]; [| discriminate].
    destruct (Nat.eqb (NumSubexp r) (length (map fst (recognized_from 0 fs)))) eqn:Hn;
      cbn [negb]; [| discriminate].
    intros H. injection H as <- <-. cbn [regex indices kinds vtype].
    apply Nat.eqb_eq in Hn. rewrite List.length_map in Hn. auto 10.
  - destruct (first_unsupported _ Hall) as (rs1 & rs2 & j & ft & E & H1 & H2).
    rewrite (compile_loop_err delim fs 0 builder0 rs1 rs2 j ft E H1 H2). discriminate.
Qed.

End CompileFacts.

Section CompileClaims.

Context {Regexp : Type} {lib : GoLib Regexp}.
Variable arch : Arch.

Lemma recognized_from_app (l1 l2 : list StructField) :
  forall i : nat,
    recognized_from i (l1 ++ l2) =
    (recognized_from i l1 ++ recognized_from (i + length l1) l2)%list.
Proof.
  induction l1 as [| ft l1 IH]; intros i; cbn [recognized_from app length].
  - rewrite Nat.add_0_r. reflexivity.
  - rewrite IH, Nat.add_succ_r. destruct (recognized ft); reflexivity.
Qed.

Lemma recognized_from_In (fs : list StructField) :
  forall (i j : nat) (ft : StructField),
    In (j, ft) (recognized_from i fs) ->
    (i <= j)%nat /\ fs !! (j - i)%nat = Some ft /\ recognized ft = true.
Proof.
  induction fs as [| g rest IH]; intros i j ft Hin; cbn [recognized_from] in Hin.
  - destruct Hin.
  - assert (Hrest : In (j, ft) (recognized_from (S i) rest) ->
                    (i <= j)%nat /\ (g :: rest) !! (j - i)%nat = Some ft /\ recognized ft = true).
    { intros H. destruct (IH _ _ _ H) as (Hle & Hl & Hr).
      replace (j - i)%nat with (S (j - S i)) by lia. repeat split; [lia | exact Hl | exact Hr]. }
    destruct (recognized g) eqn:Hg; [| auto].
    destruct Hin as [E | Hin]; [| auto].
    injection E as <- <-. rewrite Nat.sub_diag. auto.
Qed.

(** C1: for every struct shape, compilation returns a matcher and no error
    exactly when every recognized field has a supported kind, the composite
    pattern (the delimiter and fragment of each recognized field after the
    mode prefix) is accepted by regexp.Compile, and that expression has as
    many capturing groups as there are recognized fields; otherwise it
    returns an error and no matcher. [Compile] is the same with the default
    delimiter. *)
Theorem compile_succeeds_iff (ptr : bool) (fs : list StructField) (x : GoValue)
    (delim : string) :
  Compile arch (Iface (of_shape ptr fs) x) =
    CompileWithDelimiter arch (Iface (of_shape ptr fs) x) "[\s\S]*" /\
  exists (om : option (Match Regexp)) (oe : option error),
    CompileWithDelimiter arch (Iface (of_shape ptr fs) x) delim = Ok (om, oe) /\
    (om = None <-> oe <> None) /\
    ((exists m : Match Regexp, om = Some m) <->
     (forall (j : nat) (ft : StructField),
         In (j, ft) (recognized_from 0 fs) -> supported (field_kind ft) = true) /\
     exists r : Regexp,
       regexp_Compile (composite delim fs) = inl r /\
       NumSubexp r = length (recognized_from 0 fs)).
Proof.
  split; [reflexivity |].
  rewrite CompileWithDelimiter_shape.
  destruct (forallb (fun p => supported (field_kind (snd p))) (recognized_from 0 fs)) eqn:Hall.
  - assert (Hsup : forall (j : nat) (ft : StructField),
               In (j, ft) (recognized_from 0 fs) -> supported (field_kind ft) = true).
    { intros j ft Hin. rewrite forallb_forall in Hall. exact (Hall (j, ft) Hin). }
    rewrite compile_loop_ok by exact Hall. cbn [rbind].
    rewrite build_composite, build_fields. cbn [builder0 b_fields app].
    rewrite List.length_map.
    destruct (regexp_Compile (composite delim fs)) as [r | err].
    + destruct (Nat.eqb (NumSubexp r) (length (recognized_from 0 fs))) eqn:Hn; cbn [negb].
      * apply Nat.eqb_eq in Hn. eexists _, _. split; [reflexivity |].
        split; [split; [discriminate | intros H; contradiction H; reflexivity] |].
        split; [intros _; split; [exact Hsup | exists r; auto] | intros _; eauto].
      * apply Nat.eqb_neq in Hn. eexists _, _. split; [reflexivity |].
        split; [split; [discriminate | reflexivity] |].
        split; [intros [m Hm]; discriminate |].
        intros (_ & r' & Hr' & Hn'). injection Hr' as <-. contradiction.
    + eexists _, _. split; [reflexivity |].
      split; [split; [discriminate | reflexivity] |].
      split; [intros [m Hm]; discriminate |].
      intros (_ & r' & Hr' & _). discriminate.
  - destruct (first_unsupported _ Hall) as (rs1 & rs2 & j & ft & E & H1 & H2).
    rewrite (compile_loop_err arch delim fs 0 builder0 rs1 rs2 j ft E H1 H2). cbn [rbind].
    eexists _, _. split; [reflexivity |].
    split; [split; [discriminate | reflexivity] |].
    split; [intros [m Hm]; discriminate |].
    intros (Hsup & _). specialize (Hsup j ft). rewrite E in Hsup.
    rewrite Hsup in H2; [discriminate |]. apply in_or_app. right. left. reflexivity.
Qed.

(** C5, as amended: for every struct shape containing an exported field of
    unsupported kind whose fragment is neither the lone dash nor empty,
    compile fails with an error naming the first such field. *)
Theorem unsupported_kind_fails (ptr : bool) (fs1 fs2 : list StructField)
    (ft : StructField) (x : GoValue) (delim : string) :
  recognized ft = true ->
  supported (field_kind ft) = false ->
  (forall g : StructField, In g fs1 -> recognized g = true -> supported (field_kind g) = true) ->
  let err := fmt_Errorf_w ("Failed to use field " ++ Name ft) ErrUnsupportedKind in
  CompileWithDelimiter arch (Iface (of_shape ptr (fs1 ++ ft :: fs2)) x) delim
    = Ok (None, Some err) /\
  Error err = "Failed to use field " ++ Name ft ++ ": Unsupported kind".
Proof.
  intros Hrec Hk Hbefore err. split; [| reflexivity].
  rewrite CompileWithDelimiter_shape.
  rewrite (compile_loop_err arch delim (fs1 ++ ft :: fs2) 0 builder0
             (recognized_from 0 fs1) (recognized_from (S (0 + length fs1)) fs2)
             (0 + length fs1)%nat ft); [reflexivity | | | exact Hk].
  - rewrite recognized_from_app. cbn [recognized_from]. rewrite Hrec. reflexivity.
  - apply forallb_forall. intros [j g] Hin. cbn [snd].
    destruct (recognized_from_In _ _ _ _ Hin) as (_ & Hl & Hr).
    apply Hbefore; [| exact Hr].
    apply list_elem_of_In. eapply list_elem_of_lookup_2. exact Hl.
Qed.

(** C10: compilation depends on the type of its argument only: two values
    of one type, and a struct and a pointer to it (nil or not), give the
    same result, matcher and error alike. *)
Theorem compile_depends_on_type_only (delim : string) :
  (forall (t : GoType) (x1 x2 : GoValue),
      CompileWithDelimiter arch (Iface t x1) delim =
      CompileWithDelimiter arch (Iface t x2) delim) /\
  (forall (fs : list StructField) (p1 p2 : bool) (x1 x2 : GoValue),
      CompileWithDelimiter arch (Iface (of_shape p1 fs) x1) delim =
      CompileWithDelimiter arch (Iface (of_shape p2 fs) x2) delim).
Proof.
  split; [reflexivity |].
  intros fs p1 p2 x1 x2. rewrite !CompileWithDelimiter_shape. reflexivity.
Qed.

End CompileClaims.

(** ** Unmarshal *)

Section UnmarshalFacts.

Context {Regexp : Type} {lib : GoLib Regexp}.
Variable arch : Arch.

(** A kind among the primitive ones is the kind of a type without
    structure. *)
Lemma supported_leaf (t : GoType) :
  supported (Type_Kind t) = true -> t = TOther (Type_Kind t).
Proof. destruct t; cbn; [reflexivity | discriminate | discriminate]. Qed.

(** [typeParser] does not look at a Value it cannot set. *)
Lemma typeParser_cannot_set (k : Kind) (text : string) (v : Value) :
  supported k = true -> CanSet v = false ->
  typeParser arch k text v = Ok (None, v).
Proof.
  intros Hk Hv. destruct k; try discriminate Hk; cbn [typeParser]; rewrite Hv; reflexivity.
Qed.

(** On a settable variable of its kind, [typeParser] stores the converted
    text whatever the variable held, or returns the conversion error and
    leaves the variable as it was. *)
Lemma typeParser_convert (k : Kind) (text : string) (x : GoValue) :
  supported k = true ->
  exists c : error + GoValue,
    convert arch k text = Ok c /\
    typeParser arch k text (MkValue (TOther k) true false x) =
    Ok match c with
       | inl e => (Some e, MkValue (TOther k) true false x)
       | inr y => (None, MkValue (TOther k) true false y)
       end.
Proof.
  intros Hk. unfold convert.
  destruct k; try discriminate Hk; cbn [typeParser CanSet andb negb].
  - destruct (strconv.ParseBool text) as [b [e |]]; cbn; eauto.
  - destruct (strconv.ParseInt text 10 64) as [i [e |]]; cbn; eauto.
  - destruct (strconv.ParseInt text 10 64) as [i [e |]]; cbn; eauto.
  - destruct (strconv.ParseInt text 10 64) as [i [e |]]; cbn; eauto.
  - destruct (strconv.ParseInt text 10 64) as [i [e |]]; cbn; eauto.
  - destruct (strconv.ParseInt text 10 64) as [i [e |]]; cbn; eauto.
  - destruct (strconv.ParseUint text 10 64) as [i [e |]]; cbn; eauto.
  - destruct (strconv.ParseUint text 10 64) as [i [e |]]; cbn; eauto.
  - destruct (strconv.ParseUint text 10 64) as [i [e |]]; cbn; eauto.
  - destruct (strconv.ParseUint text 10 64) as [i [e |]]; cbn; eauto.
  - destruct (strconv.ParseUint text 10 64) as [i [e |]]; cbn; eauto.
  - destruct (ParseFloat text 64) as [f [e |]]; cbn; eauto.
  - destruct (ParseFloat text 64) as [f [e |]]; cbn; eauto.
  - cbn. eauto.
Qed.

(** What [typeParser] returns is the Value it was given, or that Value
    with a new content. *)
Lemma typeParser_same_variable (k : Kind) (text : string) (v : Value)
    (oe : option error) (v' : Value) :
  typeParser arch k text v = Ok (oe, v') ->
  v' = v \/ exists (t : GoType) (addr ro : bool) (x y : GoValue),
              v = MkValue t addr ro x /\ v' = MkValue t addr ro y.
Proof.
  assert (Hassign : forall (set : GoType -> option GoValue) (w : Value),
             assign v set = Ok w ->
             exists (t : GoType) (addr ro : bool) (x y : GoValue),
               v = MkValue t addr ro x /\ w = MkValue t addr ro y).
  { intros set w. unfold assign. destruct v as [| t addr ro x]; [discriminate |].
    destruct ro; [discriminate |]. destruct addr; cbn [negb]; [| discriminate].
    destruct (set t) as [y |]; [| discriminate]. intros H. injection H as <-. eauto 10. }
  unfold typeParser, SetBool, SetInt, SetUint, SetFloat, SetString.
  destruct k; destruct (CanSet v); cbn [negb];
    repeat match goal with
           | |- context [let '(_, _) := ?p in _] => destruct p as [? [? |]]
           end;
    try (intros H; injection H as <- <-; left; reflexivity);
    match goal with
    | |- rbind (assign v ?set) _ = _ -> _ =>
        destruct (assign v set) as [w |] eqn:Hw; cbn [rbind]; [| discriminate];
        intros H; injection H as <- <-; right; exact (Hassign _ _ Hw)
    end.
Qed.

(** The loop changes nothing of [v] but the content of the struct, and of
    that only the fields it visits. *)
Lemma unmarshal_loop_frame (ks : list Kind) (s : list string) (js : list nat) :
  forall (i : nat) (v v' : Value) (oe : option error),
    unmarshal_loop arch ks s i js v = Ok (v', oe) ->
    v' = v \/
    exists (t : GoType) (addr ro : bool) (xs xs' : list GoValue),
      v = MkValue t addr ro (VStruct xs) /\ v' = MkValue t addr ro (VStruct xs') /\
      forall j : nat, ~ In j js -> xs' !! j = xs !! j.
Proof.
  induction js as [| j rest IH]; intros i v v' oe H; cbn [unmarshal_loop] in H.
  - injection H as <- <-. left. reflexivity.
  - destruct (ks !! i) as [k |]; [| discriminate].
    destruct (s !! S i) as [text |]; [| discriminate].
    destruct (Value_Field v j) as [fv |] eqn:Hfv; cbn [rbind] in H; [| discriminate].
    destruct (typeParser arch k text fv) as [[oe1 fv'] |] eqn:Htp; cbn [rbind fst snd] in H;
      [| discriminate].
    unfold Value_Field in Hfv.
    destruct v as [| t addr ro x]; [discriminate |].
    destruct t as [| | fs]; try discriminate. destruct x as [| | | | | xs | |]; try discriminate.
    destruct (fs !! j) as [f |]; [| discriminate].
    destruct (xs !! j) as [xj |] eqn:Hxj; [| discriminate].
    injection Hfv as <-.
    assert (Hstore : exists y : GoValue,
               store_field (MkValue (TStruct fs) addr ro (VStruct xs)) j fv' =
               MkValue (TStruct fs) addr ro (VStruct (<[j:=y]> xs))).
    { destruct (typeParser_same_variable _ _ _ _ _ Htp)
        as [-> | (t & a & r & x & y & E & ->)]; cbn [store_field]; eauto. }
    destruct Hstore as [y Hstore]. rewrite Hstore in H.
    assert (Hhere : forall q : nat, ~ In q (j :: rest) -> <[j:=y]> xs !! q = xs !! q).
    { intros q Hq. apply list_lookup_insert_ne. intros ->. apply Hq. left. reflexivity. }
    right. exists (TStruct fs), addr, ro, xs.
    destruct oe1 as [e |].
    + injection H as <- <-. eexists. repeat split. exact Hhere.
    + destruct (IH _ _ _ _ H) as [-> | (t & a & r & xs1 & xs' & E & -> & Hrest)].
      * eexists. repeat split. exact Hhere.
      * injection E as <- <- <- <-. eexists. repeat split.
        intros q Hq. rewrite Hrest, Hhere; [reflexivity | exact Hq |].
        intros Hin. apply Hq. right. exact Hin.
Qed.

(** [Unmarshal] writes no field of the destination but those whose
    positions the matcher holds. *)
Lemma Unmarshal_frame (m : Match Regexp) (data : string) (value value' : interface)
    (oe : option error) (j : nat) :
  Unmarshal arch m data value = Ok (value', oe) ->
  ~ In j (indices m) ->
  dest_field value' j = dest_field value j.
Proof.
  unfold Unmarshal. intros H Hj.
  destruct (FindStringSubmatch (regex m) data) as [s |]; [| injection H as <- _; reflexivity].
  destruct (Value_Elem (ValueOf value)) as [v |] eqn:Hv; cbn [rbind] in H; [| discriminate].
  destruct (unmarshal_loop arch (kinds m) s 0 (indices m) v) as [[v' oe'] |] eqn:Hloop;
    cbn [rbind fst snd] in H; [| discriminate].
  injection H as <- <-.
  destruct value as [| t x]; [reflexivity |].
  cbn [ValueOf Value_Elem] in Hv.
  destruct t as [| e |]; try discriminate. destruct x as [| | | | | | [x |] |]; try discriminate.
  - injection Hv as <-.
    destruct (unmarshal_loop_frame _ _ _ _ _ _ _ Hloop)
      as [-> | (t & a & r & xs & xs' & E & -> & Hframe)]; [reflexivity |].
    injection E as <- <- <- ->. cbn [store_back dest_field]. apply Hframe, Hj.
  - injection Hv as <-.
    destruct (unmarshal_loop_frame _ _ _ _ _ _ _ Hloop)
      as [-> | (t & a & r & xs & xs' & E & -> & Hframe)]; [reflexivity | discriminate].
Qed.

Lemma lookup_map {A B : Type} (f : A -> B) (l : list A) :
  forall i : nat, map f l !! i = option_map f (l !! i).
Proof.
  induction l as [| a l IH]; intros [| i]; cbn; try reflexivity. apply IH.
Qed.

(** The positions a compiled matcher holds are those of the recognized
    fields of its shape, with their kinds, all supported. *)
Lemma compiled_positions (ptr : bool) (fs : list StructField) (x : GoValue)
    (delim : string) (m : Match Regexp) (oe : option error) (n j : nat) :
  CompileWithDelimiter arch (Iface (of_shape ptr fs) x) delim = Ok (Some m, oe) ->
  indices m !! n = Some j ->
  exists ft : StructField,
    fs !! j = Some ft /\ recognized ft = true /\
    kinds m !! n = Some (field_kind ft) /\ supported (field_kind ft) = true.
Proof.
  intros Hc Hn.
  destruct (compiled_inv arch _ _ _ _ _ _ Hc) as (_ & Hall & _ & _ & Hi & Hk & _).
  rewrite Hi, lookup_map in Hn. rewrite Hk, lookup_map.
  destruct (recognized_from 0 fs !! n) as [[j' ft] |] eqn:Hl; [| discriminate].
  injection Hn as ->.
  assert (Hin : In (j, ft) (recognized_from 0 fs)).
  { apply list_elem_of_In. eapply list_elem_of_lookup_2. exact Hl. }
  destruct (recognized_from_In _ _ _ _ Hin) as (_ & Hf & Hr).
  rewrite Nat.sub_0_r in Hf. exists ft. repeat split; [exact Hf | exact Hr |].
  rewrite forallb_forall in Hall. exact (Hall _ Hin).
Qed.

(** The submatches are enough for the positions of a compiled matcher. *)
Lemma compiled_submatch (ptr : bool) (fs : list StructField) (x : GoValue)
    (delim : string) (m : Match Regexp) (oe : option error) (data : string)
    (s : list string) (n j : nat) :
  CompileWithDelimiter arch (Iface (of_shape ptr fs) x) delim = Ok (Some m, oe) ->
  FindStringSubmatch (regex m) data = Some s ->
  indices m !! n = Some j ->
  exists text : string, s !! S n = Some text.
Proof.
  intros Hc Hs Hn.
  destruct (compiled_inv arch _ _ _ _ _ _ Hc) as (_ & _ & _ & Hsub & Hi & _ & _).
  apply FindStringSubmatch_length in Hs. apply lookup_lt_Some in Hn.
  rewrite Hi, List.length_map in Hn.
  destruct (s !! S n) as [text |] eqn:Hl; [eauto |].
  apply lookup_ge_None in Hl. lia.
Qed.

(** The loop on a struct whose visited fields cannot be set. *)
Lemma unmarshal_loop_read_only (ks : list Kind) (s : list string)
    (gs : list StructField) (ys : list GoValue) (js : list nat) :
  forall i : nat,
    (forall n j : nat,
        js !! n = Some j ->
        exists (k : Kind) (text : string) (g : StructField) (y : GoValue),
          ks !! (i + n)%nat = Some k /\ supported k = true /\
          s !! S (i + n) = Some text /\
          gs !! j = Some g /\ exported g = false /\ ys !! j = Some y) ->
    unmarshal_loop arch ks s i js (MkValue (TStruct gs) true false (VStruct ys)) =
    Ok (MkValue (TStruct gs) true false (VStruct ys), None).
Proof.
  induction js as [| j rest IH]; intros i H; cbn [unmarshal_loop]; [reflexivity |].
  destruct (H 0%nat j eq_refl) as (k & text & g & y & Hk & Hsup & Hs & Hg & Hex & Hy).
  rewrite Nat.add_0_r in Hk, Hs. rewrite Hk, Hs.
  cbn [Value_Field]. rewrite Hg, Hy. cbn [rbind].
  rewrite typeParser_cannot_set; [| exact Hsup | cbn; rewrite Hex; reflexivity].
  cbn [rbind fst snd store_field]. rewrite list_insert_id by exact Hy.
  apply IH. intros n j' Hn. specialize (H (S n) j' Hn).
  rewrite Nat.add_succ_r in H. exact H.
Qed.

(** The loop on a settable struct of the compiled shape, when the text of
    position [p] is the first that fails conversion: the fields of the
    positions before [p] hold their converted values, every other field is
    as it was, and the error names the field of position [p]. *)
Lemma unmarshal_loop_first_failure (m : Match Regexp) (s : list string)
    (fs : list StructField) (js : list nat) :
  forall (i p k : nat) (e : error) (xs : list GoValue),
    length xs = length fs ->
    (forall n j : nat,
        js !! n = Some j ->
        exists (ft : StructField) (text : string),
          fs !! j = Some ft /\ recognized ft = true /\
          kinds m !! (i + n)%nat = Some (field_kind ft) /\
          supported (field_kind ft) = true /\ s !! S (i + n) = Some text) ->
    (forall n1 n2 j1 j2 : nat,
        (n1 < n2)%nat -> js !! n1 = Some j1 -> js !! n2 = Some j2 -> (j1 < j2)%nat) ->
    js !! p = Some k ->
    conversion arch m s (i + p) = Some (Ok (inl e)) ->
    (forall n : nat, (n < p)%nat ->
                     exists y : GoValue, conversion arch m s (i + n) = Some (Ok (inr y))) ->
    exists xs' : list GoValue,
      unmarshal_loop arch (kinds m) s i js (MkValue (TStruct fs) true false (VStruct xs)) =
      Ok (MkValue (TStruct fs) true false (VStruct xs'),
          Some (errors_Wrap e ("Failed to parse field " ++ Itoa k))) /\
      length xs' = length xs /\
      (forall n j : nat,
          (n < p)%nat -> js !! n = Some j ->
          exists y : GoValue,
            conversion arch m s (i + n) = Some (Ok (inr y)) /\ xs' !! j = Some y) /\
      (forall j : nat,
          (forall n j' : nat, (n < p)%nat -> js !! n = Some j' -> j <> j') ->
          xs' !! j = xs !! j).
Proof.
  induction js as [| j rest IH]; intros i p k e xs Hlen Hwf Hinc Hp Hfail Hfirst;
    [discriminate |].
  destruct (Hwf 0%nat j eq_refl) as (ft & text & Hft & Hrec & Hk & Hsup & Htext).
  rewrite Nat.add_0_r in Hk, Htext.
  assert (Hexp : exported ft = true).
  { unfold recognized in Hrec. apply andb_true_iff in Hrec as [H _]. exact H. }
  assert (Hj : (j < length xs)%nat).
  { rewrite Hlen. eapply lookup_lt_Some. exact Hft. }
  destruct (lookup_lt_is_Some_2 xs j Hj) as [xj Hxj].
  destruct (typeParser_convert (field_kind ft) text xj Hsup) as (c & Hc & Htp).
  assert (Hconv : conversion arch m s i = Some (Ok c)).
  { unfold conversion. rewrite Hk, Htext, Hc. reflexivity. }
  cbn [unmarshal_loop]. rewrite Hk, Htext. cbn [Value_Field]. rewrite Hft, Hxj.
  rewrite Hexp. cbn [negb orb rbind].
  rewrite (supported_leaf (Type_ ft) Hsup). fold (field_kind ft). rewrite Htp.
  destruct p as [| p].
  - injection Hp as ->. rewrite Nat.add_0_r, Hconv in Hfail. injection Hfail as ->.
    cbn [rbind fst snd store_field]. rewrite list_insert_id by exact Hxj.
    exists xs. split; [reflexivity |]. split; [reflexivity |].
    split; [intros n j' Hn; lia | reflexivity].
  - destruct (Hfirst 0%nat ltac:(lia)) as [y Hy].
    rewrite Nat.add_0_r, Hconv in Hy. injection Hy as ->.
    cbn [rbind fst snd store_field].
    destruct (IH (S i) p k e (<[j:=y]> xs)) as (xs' & Hrun & Hlen' & Hdone & Hframe).
    + rewrite length_insert. exact Hlen.
    + intros n j' Hn. specialize (Hwf (S n) j' Hn). rewrite Nat.add_succ_r in Hwf. exact Hwf.
    + intros n1 n2 j1 j2 Hlt H1 H2. apply (Hinc (S n1) (S n2)); [lia | exact H1 | exact H2].
    + exact Hp.
    + rewrite Nat.add_succ_r in Hfail. exact Hfail.
    + intros n Hn. destruct (Hfirst (S n) ltac:(lia)) as [y' Hy'].
      rewrite Nat.add_succ_r in Hy'. eauto.
    + exists xs'. split; [exact Hrun |]. split; [rewrite Hlen', length_insert; reflexivity |].
      split.
      * intros [| n] j' Hn Hj'.
        -- injection Hj' as Hj'. subst j'. exists y. rewrite Nat.add_0_r. split; [exact Hconv |].
           rewrite Hframe; [apply list_lookup_insert_eq; exact Hj |].
           intros n j' Hn' Hj' E. subst j'.
           specialize (Hinc 0%nat (S n) j j ltac:(lia) eq_refl Hj'). lia.
        -- destruct (Hdone n j' ltac:(lia) Hj') as (y' & Hy' & Hl).
           exists y'. rewrite Nat.add_succ_r. auto.
      * intros j0 Hj0. rewrite Hframe.
        -- apply list_lookup_insert_ne. intros E. subst j0.
           apply (Hj0 0%nat j ltac:(lia) eq_refl eq_refl).
        -- intros n j' Hn Hj'. apply (Hj0 (S n) j' ltac:(lia) Hj').
Qed.

(** The positions of the recognized fields grow. *)
Lemma recognized_from_increasing (fs : list StructField) :
  forall (i n1 n2 j1 j2 : nat),
    (n1 < n2)%nat ->
    map fst (recognized_from i fs) !! n1 = Some j1 ->
    map fst (recognized_from i fs) !! n2 = Some j2 ->
    (j1 < j2)%nat.
Proof.
  assert (Hge : forall (fs : list StructField) (i n j : nat),
             map fst (recognized_from i fs) !! n = Some j -> (i <= j)%nat).
  { intros gs i n j H. rewrite lookup_map in H.
    destruct (recognized_from i gs !! n) as [[j' ft] |] eqn:Hl; [| discriminate].
    injection H as ->.
    apply (recognized_from_In gs i j ft). apply list_elem_of_In.
    eapply list_elem_of_lookup_2. exact Hl. }
  induction fs as [| ft rest IH]; intros i n1 n2 j1 j2 Hlt H1 H2; [discriminate |].
  cbn [recognized_from] in H1, H2. destruct (recognized ft).
  - cbn [map fst] in H1, H2. destruct n2 as [| n2]; [lia |].
    destruct n1 as [| n1].
    + injection H1 as <-. apply Hge in H2. lia.
    + apply (IH (S i) n1 n2); [lia | exact H1 | exact H2].
  - apply (IH (S i) n1 n2); assumption.
Qed.

(** [typeParser] on a settable variable stores the conversion of the text,
    kind by kind. *)
Lemma convert_primitive (k : Kind) (text : string) :
  supported k = true ->
  exists c : error + GoValue,
    primitive_conversion arch k text = Some c /\ convert arch k text = Ok c.
Proof.
  intros Hk. unfold convert.
  destruct k; try discriminate Hk;
    cbn [primitive_conversion typeParser CanSet andb negb kind_bits int_width uint_width];
    match goal with
    | |- context [strconv.ParseBool text] => destruct (strconv.ParseBool text) as [? [? |]]
    | |- context [strconv.ParseInt text 10 64] =>
        destruct (strconv.ParseInt text 10 64) as [? [? |]]
    | |- context [strconv.ParseUint text 10 64] =>
        destruct (strconv.ParseUint text 10 64) as [? [? |]]
    | |- context [ParseFloat text 64] => destruct (ParseFloat text 64) as [? [? |]]
    | |- _ => idtac
    end; cbn; eauto.
Qed.

(** At a position of the matcher whose kind is supported, the conversion
    [typeParser] makes is the conversion of the captured text. *)
Lemma conversion_captured (m : Match Regexp) (s : list string) (n : nat) (k : Kind)
    (c : error + GoValue) :
  kinds m !! n = Some k -> supported k = true ->
  (conversion arch m s n = Some (Ok c) <-> captured_conversion arch m s n = Some c).
Proof.
  intros Hk Hsup. unfold conversion, captured_conversion. rewrite Hk.
  destruct (s !! S n) as [text |]; [| split; discriminate].
  destruct (convert_primitive k text Hsup) as (c' & Hp & Hc). rewrite Hp, Hc.
  split; intros H; injection H as <-; reflexivity.
Qed.

End UnmarshalFacts.

Section UnmarshalClaims.

Context {Regexp : Type} {lib : GoLib Regexp}.
Variable arch : Arch.

Lemma recognized_snd_shift (fs : list StructField) :
  forall i i' : nat, map snd (recognized_from i fs) = map snd (recognized_from i' fs).
Proof.
  induction fs as [| ft rest IH]; intros i i'; cbn [recognized_from]; [reflexivity |].
  destruct (recognized ft); cbn [map]; [f_equal |]; apply IH.
Qed.

Lemma forallb_snd {A B : Type} (P : B -> bool) (rs : list (A * B)) :
  forallb (fun p => P (snd p)) rs = forallb P (map snd rs).
Proof. induction rs as [| p rs IH]; cbn; [reflexivity | rewrite IH; reflexivity]. Qed.

Lemma fold_left_snd {A B C : Type} (F : C -> B -> C) (rs : list (A * B)) :
  forall a : C, fold_left (fun acc p => F acc (snd p)) rs a = fold_left F (map snd rs) a.
Proof. induction rs as [| p rs IH]; intros a; cbn; [reflexivity | apply IH]. Qed.

(** The pattern of the loop is the composite pattern of the shape, once
    every recognized field has a supported kind. *)
Lemma composite_pattern_spec (delim : string) (fs : list StructField) :
  composite_pattern arch delim fs =
  if forallb (fun p => supported (field_kind (snd p))) (recognized_from 0 fs)
  then Some (composite delim fs) else None.
Proof.
  unfold composite_pattern.
  destruct (forallb (fun p => supported (field_kind (snd p))) (recognized_from 0 fs)) eqn:Hall.
  - rewrite compile_loop_ok by exact Hall. rewrite build_composite. reflexivity.
  - destruct (first_unsupported _ Hall) as (rs1 & rs2 & j & ft & E & H1 & H2).
    rewrite (compile_loop_err arch delim fs 0 builder0 rs1 rs2 j ft E H1 H2). reflexivity.
Qed.

Lemma skipped_not_recognized (ft : StructField) :
  PkgPath ft <> EmptyString \/ field_tag ft = "-" \/ field_tag ft = EmptyString ->
  recognized ft = false.
Proof.
  intros H. destruct (recognized ft) eqn:Hr; [| reflexivity].
  apply recognized_spec in Hr as (H1 & H2 & H3). tauto.
Qed.

(** C6: a field whose fragment is the lone dash or empty, and a field that
    is not exported whatever its fragment, adds nothing to the composite
    pattern (the shape without the field gives the same pattern), its
    position is not among those of the matcher, and no call of unmarshal,
    whatever the input and the destination, writes the field. *)
Theorem skipped_field_takes_no_part (ptr : bool) (fs1 fs2 : list StructField)
    (ft : StructField) (x : GoValue) (delim : string) :
  PkgPath ft <> EmptyString \/ field_tag ft = "-" \/ field_tag ft = EmptyString ->
  composite_pattern arch delim (fs1 ++ ft :: fs2) = composite_pattern arch delim (fs1 ++ fs2) /\
  forall (m : Match Regexp) (oe : option error),
    CompileWithDelimiter arch (Iface (of_shape ptr (fs1 ++ ft :: fs2)) x) delim = Ok (Some m, oe) ->
    ~ In (length fs1) (indices m) /\
    forall (data : string) (value value' : interface) (oe' : option error),
      Unmarshal arch m data value = Ok (value', oe') ->
      dest_field value' (length fs1) = dest_field value (length fs1).
Proof.
  intros Hskip. apply skipped_not_recognized in Hskip.
  assert (Hsame : map snd (recognized_from 0 (fs1 ++ ft :: fs2)) =
                  map snd (recognized_from 0 (fs1 ++ fs2))).
  { rewrite !recognized_from_app. cbn [recognized_from]. rewrite Hskip.
    rewrite !map_app. f_equal. apply recognized_snd_shift. }
  split.
  - rewrite !composite_pattern_spec. unfold composite.
    rewrite !(forallb_snd (fun g => supported (field_kind g))).
    rewrite !(fold_left_snd (fun acc g => acc ++ delim ++ field_tag g)).
    rewrite Hsame. reflexivity.
  - intros m oe Hc.
    assert (Hnot : ~ In (length fs1) (indices m)).
    { destruct (compiled_inv arch _ _ _ _ _ _ Hc) as (_ & _ & _ & _ & Hi & _ & _).
      rewrite Hi. intros Hin. apply in_map_iff in Hin as ([j g] & Hj & Hin).
      cbn [fst] in Hj. subst j.
      destruct (recognized_from_In _ _ _ _ Hin) as (_ & Hl & Hr).
      rewrite Nat.sub_0_r, list_lookup_middle in Hl by reflexivity.
      injection Hl as <-. congruence. }
    split; [exact Hnot |].
    intros data value value' oe' Hu. eapply Unmarshal_frame; eassumption.
Qed.

(** C9: when the composite expression finds no match in the input,
    unmarshal returns the error "No matches found" and the destination is
    exactly as supplied. *)
Theorem no_match_no_write (m : Match Regexp) (data : string) (value : interface) :
  FindStringSubmatch (regex m) data = None ->
  Unmarshal arch m data value = Ok (value, Some (errors_New "No matches found")) /\
  Error (errors_New "No matches found") = "No matches found".
Proof. intros H. unfold Unmarshal. rewrite H. split; reflexivity. Qed.

(** C7, as amended: for every compiled matcher and every input on which
    the composite expression matches, unmarshal into a pointer to a struct
    whose fields at the positions of the matcher exist and cannot be set
    returns no error, whatever the captured texts, and leaves the struct as
    it was. *)
Theorem unsettable_destination_untouched (ptr : bool) (fs : list StructField)
    (x : GoValue) (delim : string) (m : Match Regexp) (oe : option error) (data : string)
    (s : list string) (gs : list StructField) (ys : list GoValue) :
  CompileWithDelimiter arch (Iface (of_shape ptr fs) x) delim = Ok (Some m, oe) ->
  FindStringSubmatch (regex m) data = Some s ->
  (forall j : nat,
      In j (indices m) ->
      exists (g : StructField) (y : GoValue),
        gs !! j = Some g /\ exported g = false /\ ys !! j = Some y) ->
  Unmarshal arch m data (pointer_to gs ys) = Ok (pointer_to gs ys, None).
Proof.
  intros Hc Hs Hro. unfold Unmarshal. rewrite Hs.
  cbn [pointer_to ValueOf Value_Elem rbind].
  rewrite unmarshal_loop_read_only; [reflexivity |].
  intros n j Hn.
  destruct (compiled_positions arch _ _ _ _ _ _ _ _ Hc Hn) as (ft & _ & _ & Hk & Hsup).
  destruct (compiled_submatch arch _ _ _ _ _ _ _ _ _ _ Hc Hs Hn) as [text Htext].
  destruct (Hro j) as (g & y & Hg & Hex & Hy).
  { apply list_elem_of_In. eapply list_elem_of_lookup_2. exact Hn. }
  exists (field_kind ft), text, g, y. cbn [Nat.add]. auto 10.
Qed.

(** C2: for a matcher compiled from a shape, an input that matches and a
    destination that points to a struct of that shape: when the field at
    position [k] of the struct is the first recognized field whose captured
    text fails conversion, unmarshal has written the recognized fields
    before it with their converted values (the boolean, the integer reduced
    to the width of the field, the float or the text that strconv reads in
    the captured text), has left field [k] and every later field (and every
    field that is not recognized) as it was, and returns the error "Failed
    to parse field k" around the conversion error. *)
Theorem first_failure_ordering (ptr : bool) (fs : list StructField) (x0 : GoValue)
    (delim : string) (m : Match Regexp) (oe : option error) (data : string)
    (s : list string) (xs : list GoValue) (p k : nat) (e : error) :
  CompileWithDelimiter arch (Iface (of_shape ptr fs) x0) delim = Ok (Some m, oe) ->
  FindStringSubmatch (regex m) data = Some s ->
  length xs = length fs ->
  indices m !! p = Some k ->
  captured_conversion arch m s p = Some (inl e) ->
  (forall n : nat, (n < p)%nat ->
                   exists y : GoValue, captured_conversion arch m s n = Some (inr y)) ->
  exists xs' : list GoValue,
    Unmarshal arch m data (pointer_to fs xs) =
    Ok (pointer_to fs xs', Some (errors_Wrap e ("Failed to parse field " ++ Itoa k))) /\
    Error (errors_Wrap e ("Failed to parse field " ++ Itoa k)) =
    "Failed to parse field " ++ Itoa k ++ ": " ++ Error e /\
    (forall n j : nat,
        (n < p)%nat -> indices m !! n = Some j ->
        exists y : GoValue, captured_conversion arch m s n = Some (inr y) /\ xs' !! j = Some y) /\
    (forall j : nat, (k <= j)%nat -> xs' !! j = xs !! j) /\
    (forall j : nat, ~ In j (indices m) -> xs' !! j = xs !! j).
Proof.
  intros Hc Hs Hlen Hp Hfail Hfirst.
  assert (Hlink : forall (n : nat) (c : error + GoValue),
             (n <= p)%nat ->
             (conversion arch m s n = Some (Ok c) <-> captured_conversion arch m s n = Some c)).
  { intros n c Hn.
    destruct (lookup_lt_is_Some_2 (indices m) n) as [j Hj].
    { apply lookup_lt_Some in Hp. lia. }
    destruct (compiled_positions arch _ _ _ _ _ _ _ _ Hc Hj) as (ft & _ & _ & Hk & Hsup).
    exact (conversion_captured arch m s n _ c Hk Hsup). }
  assert (Hinc : forall n1 n2 j1 j2 : nat,
             (n1 < n2)%nat -> indices m !! n1 = Some j1 -> indices m !! n2 = Some j2 ->
             (j1 < j2)%nat).
  { destruct (compiled_inv arch _ _ _ _ _ _ Hc) as (_ & _ & _ & _ & Hi & _ & _).
    rewrite Hi. apply recognized_from_increasing. }
  destruct (unmarshal_loop_first_failure arch m s fs (indices m) 0 p k e xs)
    as (xs' & Hrun & _ & Hdone & Hframe); try assumption.
  - intros n j Hn.
    destruct (compiled_positions arch _ _ _ _ _ _ _ _ Hc Hn) as (ft & Hft & Hr & Hk & Hsup).
    destruct (compiled_submatch arch _ _ _ _ _ _ _ _ _ _ Hc Hs Hn) as [text Htext].
    exists ft, text. cbn [Nat.add]. auto 10.
  - cbn [Nat.add]. apply Hlink; [lia | exact Hfail].
  - intros n Hn. destruct (Hfirst n Hn) as [y Hy]. exists y. cbn [Nat.add].
    apply Hlink; [lia | exact Hy].
  - exists xs'. unfold Unmarshal. rewrite Hs.
    cbn [pointer_to ValueOf Value_Elem rbind]. rewrite Hrun.
    cbn [rbind fst snd store_back].
    split; [reflexivity |]. split; [reflexivity |]. split; [| split].
    + intros n j Hn Hj. destruct (Hdone n j Hn Hj) as (y & Hy & Hl).
      exists y. split; [| exact Hl]. cbn [Nat.add] in Hy. apply Hlink; [lia | exact Hy].
    + intros j Hj. apply Hframe. intros n j' Hn Hj' ->.
      specialize (Hinc n p j' k Hn Hj' Hp). lia.
    + intros j Hj. apply Hframe. intros n j' Hn Hj' ->. apply Hj.
      apply list_elem_of_In. eapply list_elem_of_lookup_2. exact Hj'.
Qed.

End UnmarshalClaims.

(** ** Integer fields *)

Section IntegerFacts.

Lemma digits_value_ge (s : string) :
  forall acc z : Z, 0 <= acc -> digits_value s acc = Some z -> acc <= z.
Proof.
  induction s as [| ch rest IH]; intros acc z Hacc H; cbn [digits_value] in H.
  - injection H as <-. lia.
  - destruct ((48 <=? strconv.byte_of ch) && (strconv.byte_of ch <=? 57)) eqn:Hd;
      [| discriminate].
    apply andb_true_iff in Hd as [H1 H2]. apply Z.leb_le in H1, H2.
    apply IH in H; lia.
Qed.

(** The digit loop of [ParseUint] in base 10 and 64 bits returns the number
    the digits spell when it is below [2 ^ 64], and an error for any other
    text. *)
Lemma ParseUint_loop_spec (fn s0 : string) (s : string) :
  forall n : Z,
    0 <= n < 2 ^ 64 ->
    match digits_value s n with
    | Some z =>
        if z <? 2 ^ 64
        then strconv.ParseUint_loop fn s0 10 (strconv.maxUint64 / 10 + 1) (2 ^ 64 - 1) s n
             = (z, None)
        else uint_failure fn s0
               (strconv.ParseUint_loop fn s0 10 (strconv.maxUint64 / 10 + 1) (2 ^ 64 - 1) s n)
    | None =>
        uint_failure fn s0
          (strconv.ParseUint_loop fn s0 10 (strconv.maxUint64 / 10 + 1) (2 ^ 64 - 1) s n)
    end.
Proof.
  unfold uint_failure.
  change (strconv.maxUint64 / 10 + 1) with 1844674407370955162.
  change (2 ^ 64 - 1) with 18446744073709551615.
  change (2 ^ 64) with 18446744073709551616.
  induction s as [| ch rest IH]; intros n Hn; cbn [digits_value strconv.ParseUint_loop].
  - destruct (n <? 18446744073709551616) eqn:Hlt; [reflexivity |].
    apply Z.ltb_ge in Hlt. lia.
  - set (c := strconv.byte_of ch).
    destruct ((48 <=? c) && (c <=? 57)) eqn:Hd.
    + apply andb_true_iff in Hd as [H1 H2]. apply Z.leb_le in H1, H2.
      destruct (10 <=? c - 48) eqn:Hb; [apply Z.leb_le in Hb; lia |].
      destruct (1844674407370955162 <=? n) eqn:Hcut.
      * apply Z.leb_le in Hcut.
        destruct (digits_value rest (10 * n + (c - 48))) as [z |] eqn:Hz; [| (unfold uint_failure; auto)].
        apply digits_value_ge in Hz; [| lia].
        destruct (z <? 18446744073709551616) eqn:Hlt; [apply Z.ltb_lt in Hlt; lia | (unfold uint_failure; auto)].
      * apply Z.leb_gt in Hcut.
        change (2 ^ 64) with 18446744073709551616.
        destruct (Z_lt_ge_dec (n * 10 + (c - 48)) 18446744073709551616) as [Hfit | Hover].
        -- rewrite Z.mod_small by lia.
           destruct (n * 10 + (c - 48) <? n * 10) eqn:H3; [apply Z.ltb_lt in H3; lia |].
           destruct (18446744073709551615 <? n * 10 + (c - 48)) eqn:H4;
             [apply Z.ltb_lt in H4; lia |].
           cbn [orb]. replace (10 * n + (c - 48)) with (n * 10 + (c - 48)) by lia.
           apply IH. lia.
        -- assert (Hmod : (n * 10 + (c - 48)) mod 18446744073709551616 =
                          n * 10 + (c - 48) - 18446744073709551616).
           { symmetry. apply Z.mod_unique with (q := 1); lia. }
           rewrite Hmod.
           destruct (n * 10 + (c - 48) - 18446744073709551616 <? n * 10) eqn:H3;
             [| apply Z.ltb_ge in H3; lia].
           cbn [orb].
           destruct (digits_value rest (10 * n + (c - 48))) as [z |] eqn:Hz; [| (unfold uint_failure; auto)].
           apply digits_value_ge in Hz; [| lia].
           destruct (z <? 18446744073709551616) eqn:Hlt; [apply Z.ltb_lt in Hlt; lia | (unfold uint_failure; auto)].
    + destruct ((97 <=? strconv.lower c) && (strconv.lower c <=? 122)) eqn:Hl; [| (unfold uint_failure; auto)].
      apply andb_true_iff in Hl as [H1 H2]. apply Z.leb_le in H1, H2.
      destruct (10 <=? strconv.lower c - 97 + 10) eqn:Hb; [(unfold uint_failure; auto) |].
      apply Z.leb_gt in Hb. lia.
Qed.


Lemma ParseUint_spec (s : string) :
  match decimal s with
  | Some z =>
      if z <? 2 ^ 64 then strconv.ParseUint s 10 64 = (z, None)
      else uint_failure "ParseUint" s (strconv.ParseUint s 10 64)
  | None => uint_failure "ParseUint" s (strconv.ParseUint s 10 64)
  end.
Proof.
  destruct s as [| ch rest]; [left; reflexivity |].
  unfold decimal, strconv.ParseUint. cbn [String.eqb].
  apply (ParseUint_loop_spec "ParseUint" (String ch rest) (String ch rest) 0). lia.
Qed.

Lemma ParseInt_finish_spec (s0 t : string) (neg : bool) :
  match option_map (fun z => if neg then - z else z) (decimal t) with
  | Some z =>
      if (- 2 ^ 63 <=? z) && (z <? 2 ^ 63)
      then ParseInt_finish s0 neg (strconv.ParseUint t 10 64) = (z, None)
      else exists (v : Z) (e : error),
          ParseInt_finish s0 neg (strconv.ParseUint t 10 64) = (v, Some e)
  | None =>
      exists (v : Z) (e : error),
        ParseInt_finish s0 neg (strconv.ParseUint t 10 64) = (v, Some e)
  end.
Proof.
  pose proof (ParseUint_spec t) as Hu.
  assert (Hpos : forall z : Z, decimal t = Some z -> 0 <= z).
  { intros z Hz. destruct t; [discriminate |]. apply digits_value_ge in Hz; lia. }
  assert (Hfail : uint_failure "ParseUint" t (strconv.ParseUint t 10 64) ->
                  exists (v : Z) (e : error),
                    ParseInt_finish s0 neg (strconv.ParseUint t 10 64) = (v, Some e)).
  { intros [-> | ->]; [cbn; eauto |]. destruct neg; cbn; eauto. }
  change (2 ^ 63) with 9223372036854775808.
  change (2 ^ 64) with 18446744073709551616 in Hu.
  destruct (decimal t) as [z |]; cbn [option_map]; [| auto].
  specialize (Hpos z eq_refl).
  destruct (z <? 18446744073709551616) eqn:Hlt.
  - rewrite Hu. cbv beta iota zeta delta [ParseInt_finish].
    change (2 ^ (64 - 1)) with 9223372036854775808.
    destruct neg; cbn [negb andb].
    + destruct (9223372036854775808 <? z) eqn:Hc;
        destruct ((Z.opp 9223372036854775808 <=? - z) && (- z <? 9223372036854775808)) eqn:Hr;
        eauto; exfalso.
      * apply Z.ltb_lt in Hc. apply andb_true_iff in Hr as [Hr _]. apply Z.leb_le in Hr. lia.
      * apply Z.ltb_ge in Hc.
        apply andb_false_iff in Hr as [Hr | Hr];
          [apply Z.leb_gt in Hr | apply Z.ltb_ge in Hr]; lia.
    + destruct (9223372036854775808 <=? z) eqn:Hc;
        destruct ((Z.opp 9223372036854775808 <=? z) && (z <? 9223372036854775808)) eqn:Hr;
        eauto; exfalso.
      * apply Z.leb_le in Hc. apply andb_true_iff in Hr as [_ Hr]. apply Z.ltb_lt in Hr. lia.
      * apply Z.leb_gt in Hc.
        apply andb_false_iff in Hr as [Hr | Hr];
          [apply Z.leb_gt in Hr | apply Z.ltb_ge in Hr]; lia.
  - apply Z.ltb_ge in Hlt.
    destruct neg.
    + destruct ((Z.opp 9223372036854775808 <=? - z) && (- z <? 9223372036854775808)) eqn:Hr;
        [| auto].
      apply andb_true_iff in Hr as [Hr _]. apply Z.leb_le in Hr. lia.
    + destruct ((Z.opp 9223372036854775808 <=? z) && (z <? 9223372036854775808)) eqn:Hr;
        [| auto].
      apply andb_true_iff in Hr as [_ Hr]. apply Z.ltb_lt in Hr. lia.
Qed.

(** [ParseInt] in base 10 and 64 bits returns the number the text spells
    when it is in the range of [int64], and an error for any other text. *)
Lemma ParseInt_spec (s : string) :
  match signed_decimal s with
  | Some z =>
      if (- 2 ^ 63 <=? z) && (z <? 2 ^ 63) then strconv.ParseInt s 10 64 = (z, None)
      else exists (v : Z) (e : error), strconv.ParseInt s 10 64 = (v, Some e)
  | None => exists (v : Z) (e : error), strconv.ParseInt s 10 64 = (v, Some e)
  end.
Proof.
  destruct s as [| c0 rest]; [cbn; eauto |].
  unfold signed_decimal.
  destruct (Ascii.eqb c0 "+") eqn:Hplus.
  - replace (strconv.ParseInt (String c0 rest) 10 64)
      with (ParseInt_finish (String c0 rest) false (strconv.ParseUint rest 10 64))
      by (unfold strconv.ParseInt; rewrite Hplus; reflexivity).
    pose proof (ParseInt_finish_spec (String c0 rest) rest false) as H.
    destruct (decimal rest); exact H.
  - destruct (Ascii.eqb c0 "-") eqn:Hminus.
    + replace (strconv.ParseInt (String c0 rest) 10 64)
        with (ParseInt_finish (String c0 rest) true (strconv.ParseUint rest 10 64))
        by (unfold strconv.ParseInt; rewrite Hplus, Hminus; reflexivity).
      pose proof (ParseInt_finish_spec (String c0 rest) rest true) as H.
      unfold option_map in *. destruct (decimal rest); exact H.
    + replace (strconv.ParseInt (String c0 rest) 10 64)
        with (ParseInt_finish (String c0 rest) false
                (strconv.ParseUint (String c0 rest) 10 64))
        by (unfold strconv.ParseInt; rewrite Hplus, Hminus; reflexivity).
      pose proof (ParseInt_finish_spec (String c0 rest) (String c0 rest) false) as H.
      destruct (decimal (String c0 rest)); exact H.
Qed.

Context {Regexp : Type} {lib : GoLib Regexp}.
Variable arch : Arch.

Lemma signed_field (k : Kind) (text : string) (x : GoValue) :
  In k signed_kinds ->
  match signed_decimal text with
  | Some z =>
      if (- 2 ^ 63 <=? z) && (z <? 2 ^ 63)
      then typeParser arch k text (variable k x) =
           Ok (None, variable k (VInt (wrap_signed (kind_bits arch k) z)))
      else conversion_fails arch k text x
  | None => conversion_fails arch k text x
  end.
Proof.
  intros Hk. pose proof (ParseInt_spec text) as Hp. unfold conversion_fails.
  destruct (signed_decimal text) as [z |].
  - destruct ((- 2 ^ 63 <=? z) && (z <? 2 ^ 63)).
    + cbn in Hk. decompose [or] Hk; try contradiction; subst k;
        cbn [typeParser variable CanSet andb negb]; rewrite Hp; reflexivity.
    + destruct Hp as (v & e & Hp). exists e.
      cbn in Hk. decompose [or] Hk; try contradiction; subst k;
        cbn [typeParser variable CanSet andb negb]; rewrite Hp; reflexivity.
  - destruct Hp as (v & e & Hp). exists e.
    cbn in Hk. decompose [or] Hk; try contradiction; subst k;
      cbn [typeParser variable CanSet andb negb]; rewrite Hp; reflexivity.
Qed.

Lemma unsigned_field (k : Kind) (text : string) (x : GoValue) :
  In k unsigned_kinds ->
  match decimal text with
  | Some z =>
      if z <? 2 ^ 64
      then typeParser arch k text (variable k x) =
           Ok (None, variable k (VUint (wrap_unsigned (kind_bits arch k) z)))
      else conversion_fails arch k text x
  | None => conversion_fails arch k text x
  end.
Proof.
  intros Hk. pose proof (ParseUint_spec text) as Hp. unfold conversion_fails.
  assert (Hfail : uint_failure "ParseUint" text (strconv.ParseUint text 10 64) ->
                  exists e : error,
                    typeParser arch k text (variable k x) = Ok (Some e, variable k x)).
  { intros [H | H]; eexists;
      cbn in Hk; decompose [or] Hk; try contradiction; subst k;
      cbn [typeParser variable CanSet andb negb]; rewrite H; reflexivity. }
  destruct (decimal text) as [z |]; [| auto].
  destruct (z <? 2 ^ 64); [| auto].
  cbn in Hk. decompose [or] Hk; try contradiction; subst k;
    cbn [typeParser variable CanSet andb negb]; rewrite Hp; reflexivity.
Qed.

(** C4, as amended: for a field of signed or unsigned integer kind and any
    captured text, the text is parsed as base-10 against the range of 64
    bits whatever the width of the field: text that is not a number or whose
    value is out of the 64-bit range is a conversion failure, text with a
    leading minus sign is a conversion failure for an unsigned field, and a
    value in the 64-bit range is stored reduced to the width of the field. *)
Theorem integer_fields_parse_64_bits (text : string) (x : GoValue) :
  Forall (fun k =>
    match signed_decimal text with
    | Some z =>
        if (- 2 ^ 63 <=? z) && (z <? 2 ^ 63)
        then typeParser arch k text (variable k x) =
             Ok (None, variable k (VInt (wrap_signed (kind_bits arch k) z)))
        else conversion_fails arch k text x
    | None => conversion_fails arch k text x
    end) signed_kinds /\
  Forall (fun k =>
    match decimal text with
    | Some z =>
        if z <? 2 ^ 64
        then typeParser arch k text (variable k x) =
             Ok (None, variable k (VUint (wrap_unsigned (kind_bits arch k) z)))
        else conversion_fails arch k text x
    | None => conversion_fails arch k text x
    end) unsigned_kinds /\
  Forall (fun k => conversion_fails arch k (String "-" text) x) unsigned_kinds.
Proof.
  split; [| split]; apply List.Forall_forall; intros k Hk.
  - apply signed_field, Hk.
  - apply unsigned_field, Hk.
  - apply (unsigned_field k (String "-" text) x Hk).
Qed.

End IntegerFacts.

(** ** The matching mode *)

Section MatchingMode.

Context {Regexp : Type} {lib : GoLib Regexp}.
Variable arch : Arch.

Lemma string_app_assoc (a b c : string) : (a ++ b) ++ c = a ++ (b ++ c).
Proof. induction a as [| ch a IH]; cbn; [reflexivity | rewrite IH; reflexivity]. Qed.

Lemma fold_left_append_prefix {A : Type} (g : A -> string) (rs : list A) :
  forall a b : string,
    fold_left (fun acc p => acc ++ g p) rs (a ++ b) =
    a ++ fold_left (fun acc p => acc ++ g p) rs b.
Proof.
  induction rs as [| p rs IH]; intros a b; cbn [fold_left]; [reflexivity |].
  rewrite string_app_assoc. apply IH.
Qed.

(** The composite pattern is the mode prefix and, after it, the delimiter
    and the fragment of every recognized field. *)
Lemma composite_prefix (delim : string) (fs : list StructField) :
  composite delim fs = "(?mU)" ++ pattern_body delim fs.
Proof.
  unfold composite, pattern_body.
  apply (fold_left_append_prefix (fun p => delim ++ field_tag (snd p)) _ "(?mU)" EmptyString).
Qed.

(** The flags after the flag group (?mU), whatever follows it. *)
Lemma leading_flags_mU (body : string) :
  regexp.leading_flags ("(?mU)" ++ body) =
  Some {| regexp.FoldCase := false; regexp.MultiLine := true;
          regexp.DotNL := false; regexp.NonGreedy := true |}.
Proof. reflexivity. Qed.

(** The modelled parser reads what follows the flag group (?mU) with the
    flags m and U set and the flags i and s clear. *)
Lemma parse_after_mode_prefix (fuel : nat) (whole rest : list ascii) :
  regexp.parse (S fuel) whole regexp.Perl 0
    ("("%char :: "?"%char :: "m"%char :: "U"%char :: ")"%char :: rest) [] [] false =
  regexp.parse fuel whole
    {| regexp.FoldCase := false; regexp.MultiLine := true;
       regexp.DotNL := false; regexp.NonGreedy := true |}
    0 rest [] [] false.
Proof. reflexivity. Qed.

(** C3, as amended: for every compiled matcher, whatever the library of
    regular expressions, the composite expression is what [regexp.Compile]
    returns for the pattern made of the flag group (?mU) followed by the
    delimiter and the fragment of every recognized field in order. The flag
    group the pattern starts with sets the flags m (multiline: line anchors
    operate per line) and U (ungreedy: quantifiers are minimal-match by
    default) and sets neither i (case-insensitive) nor s. *)
Theorem matching_mode (ptr : bool) (fs : list StructField) (x : GoValue)
    (delim : string) (m : Match Regexp) (oe : option error) :
  CompileWithDelimiter arch (Iface (of_shape ptr fs) x) delim = Ok (Some m, oe) ->
  regexp_Compile ("(?mU)" ++ pattern_body delim fs) = inl (regex m) /\
  regexp.leading_flags ("(?mU)" ++ pattern_body delim fs) =
  Some {| regexp.FoldCase := false; regexp.MultiLine := true;
          regexp.DotNL := false; regexp.NonGreedy := true |}.
Proof.
  intros Hc.
  destruct (compiled_inv arch _ _ _ _ _ _ Hc) as (_ & _ & Hr & _).
  rewrite composite_prefix in Hr. split; [exact Hr | apply leading_flags_mU].
Qed.

End MatchingMode.

(** ** The package on concrete input, with the modelled library *)

Section Examples.

Local Existing Instance go_lib.

(** C8, as amended: for the shape with the fields Encoded, WroteBytes and
    Overhead compiled with the default delimiter, unmarshal on the three
    lines of output succeeds and sets Encoded to "4" (the least text the
    ungreedy group can take), WroteBytes to 3853633 and Overhead to the
    32-bit float nearest to 3.39, which is 14218691 / 2 ^ 22, within half
    a unit in the last place of 339 / 100. *)
Theorem opusenc_scenario :
  Compile Arch64 (Iface (TPtr (TStruct opusenc_shape)) (VPtr None)) =
  Ok (Some opusenc_matcher, None) /\
  Unmarshal Arch64 opusenc_matcher opusenc_output (pointer_to opusenc_shape opusenc_zero) =
  Ok (pointer_to opusenc_shape
        [ VString "4"; VUint 3853633;
          VFloat (strconv_model.round_decimal 24 128 false 339 (-2)) ],
      None) /\
  strconv_model.round_decimal 24 128 false 339 (-2) = S754_finite false 14218691 (-22) /\
  2 * Z.abs (100 * 14218691 - 339 * 2 ^ 22) <= 100.
Proof. repeat split; vm_compute; try reflexivity. discriminate. Qed.

(** C8 as stated fails: Encoded is set to "4", not to "4 minutes". *)
Lemma opusenc_encoded_is_minimal :
  Compile Arch64 (Iface (TPtr (TStruct opusenc_shape)) (VPtr None)) =
  Ok (Some opusenc_matcher, None) /\
  exists value' : interface,
    Unmarshal Arch64 opusenc_matcher opusenc_output (pointer_to opusenc_shape opusenc_zero) =
    Ok (value', None) /\
    dest_field value' 0 = Some (VString "4") /\
    dest_field value' 0 <> Some (VString "4 minutes").
Proof.
  split; [vm_compute; reflexivity |].
  exists (pointer_to opusenc_shape
            [ VString "4"; VUint 3853633;
              VFloat (strconv_model.round_decimal 24 128 false 339 (-2)) ]).
  split; [vm_compute; reflexivity |]. split; [reflexivity | discriminate].
Qed.

(** C3 as stated fails: the mode is not case-insensitive. The expression
    of the fragment (a) matches the input a and does not match A. *)
Lemma mode_is_case_sensitive :
  Compile Arch64 (Iface (TPtr (TStruct letter_shape)) (VPtr None)) =
  Ok (Some letter_matcher, None) /\
  option_map regexp.FoldCase (regexp.leading_flags (regexp.expr (regex letter_matcher))) =
  Some false /\
  Unmarshal Arch64 letter_matcher "a" (pointer_to letter_shape [VString EmptyString]) =
  Ok (pointer_to letter_shape [VString "a"], None) /\
  Unmarshal Arch64 letter_matcher "A" (pointer_to letter_shape [VString EmptyString]) =
  Ok (pointer_to letter_shape [VString EmptyString], Some (errors_New "No matches found")).
Proof. repeat split; vm_compute; reflexivity. Qed.

(** C4 as stated fails: the width of the field is not honoured. The text
    300 is out of the range of an int8 field, and unmarshal stores 44 in it
    and returns no error. *)
Lemma int8_field_wraps :
  Compile Arch64 (Iface (TPtr (TStruct int8_shape)) (VPtr None)) =
  Ok (Some int8_matcher, None) /\
  FindStringSubmatch (regex int8_matcher) "300" = Some ["300"; "300"] /\
  2 ^ 7 <= 300 /\
  Unmarshal Arch64 int8_matcher "300" (pointer_to int8_shape [VInt 0]) =
  Ok (pointer_to int8_shape [VInt 44], None).
Proof. repeat split; vm_compute; try reflexivity. discriminate. Qed.

(** C5 as stated fails: a field of unsupported kind with the skip tag does
    not make compile fail. *)
Lemma skipped_unsupported_kind_compiles :
  supported (field_kind (field "X" "-" (TStruct []))) = false /\
  Compile Arch64 (Iface (TPtr (TStruct skipped_struct_shape)) (VPtr None)) =
  Ok (Some skipped_struct_matcher, None).
Proof. split; [reflexivity |]. vm_compute. reflexivity. Qed.

(** C7 as stated fails: the fields of a struct handed over by value cannot
    be set, and unmarshal panics on it. *)
Lemma struct_by_value_panics :
  Compile Arch64 (Iface (TPtr (TStruct letter_shape)) (VPtr None)) =
  Ok (Some letter_matcher, None) /\
  FindStringSubmatch (regex letter_matcher) "a" = Some ["a"; "a"] /\
  (do fv <- Value_Field (ValueOf (Iface (TStruct letter_shape) (VStruct [VString EmptyString]))) 0;
   Ok (CanSet fv)) = Ok false /\
  Unmarshal Arch64 letter_matcher "a" (Iface (TStruct letter_shape) (VStruct [VString EmptyString])) =
  Panic "reflect: call of reflect.Value.Elem on non-pointer Value".
Proof. repeat split; vm_compute; reflexivity. Qed.

(** The first failure of C2 on the struct of five fields: the text of U,
    at position 4, is no unsigned integer. B holds true, F the float64 2.5,
    G the float32 nearest to 0.1, N the integer 30; U is as it was. *)
Lemma first_failure_ordering_witness :
  exists xs' : list GoValue,
    Unmarshal Arch64 typed_matcher typed_input (pointer_to typed_shape typed_zero) =
    Ok (pointer_to typed_shape xs',
        Some (errors_Wrap (NumError "ParseUint" "-1" ErrSyntax)
                ("Failed to parse field " ++ Itoa 4))) /\
    xs' !! 0%nat = Some (VBool true) /\
    xs' !! 1%nat = Some (VFloat (S754_finite false 5629499534213120 (-51))) /\
    xs' !! 2%nat = Some (VFloat (S754_finite false 13421773 (-27))) /\
    xs' !! 3%nat = Some (VInt 30) /\
    xs' !! 4%nat = typed_zero !! 4%nat.
Proof.
  destruct (first_failure_ordering Arch64 true typed_shape (VPtr None) "[\s\S]*"
              typed_matcher None typed_input
              [typed_input; "true"; "2.5"; "0.1"; "30"; "-1"] typed_zero 4 4
              (NumError "ParseUint" "-1" ErrSyntax))
    as (xs' & Hrun & _ & Hdone & Hlater & _).
  - vm_compute. reflexivity.
  - vm_compute. reflexivity.
  - reflexivity.
  - reflexivity.
  - vm_compute. reflexivity.
  - intros [| [| [| [| n]]]] Hn; [| | | | lia].
    + exists (VBool true). vm_compute. reflexivity.
    + exists (VFloat (S754_finite false 5629499534213120 (-51))). vm_compute. reflexivity.
    + exists (VFloat (S754_finite false 13421773 (-27))). vm_compute. reflexivity.
    + exists (VInt 30). vm_compute. reflexivity.
  - exists xs'. split; [exact Hrun |].
    destruct (Hdone 0%nat 0%nat ltac:(lia) eq_refl) as (y0 & Hy0 & Hl0).
    destruct (Hdone 1%nat 1%nat ltac:(lia) eq_refl) as (y1 & Hy1 & Hl1).
    destruct (Hdone 2%nat 2%nat ltac:(lia) eq_refl) as (y2 & Hy2 & Hl2).
    destruct (Hdone 3%nat 3%nat ltac:(lia) eq_refl) as (y3 & Hy3 & Hl3).
    vm_compute in Hy0, Hy1, Hy2, Hy3.
    injection Hy0 as <-. injection Hy1 as <-. injection Hy2 as <-. injection Hy3 as <-.
    repeat (split; [assumption |]). apply Hlater. lia.
Defined.

(** The struct of the tests with a field of kind struct: compile fails and
    names the field. *)
Lemma unsupported_kind_fails_witness :
  recognized (field "UnsupportedType" (sfmatch_tag "a") (TStruct [])) = true /\
  supported (field_kind (field "UnsupportedType" (sfmatch_tag "a") (TStruct []))) = false /\
  CompileWithDelimiter Arch64 (Iface (of_shape true panicpls_shape) (VPtr None)) "[\s\S]*" =
  Ok (None, Some (fmt_Errorf_w "Failed to use field UnsupportedType" ErrUnsupportedKind)) /\
  Error (fmt_Errorf_w "Failed to use field UnsupportedType" ErrUnsupportedKind) =
  "Failed to use field UnsupportedType: Unsupported kind".
Proof.
  split; [vm_compute; reflexivity |]. split; [reflexivity |].
  apply (unsupported_kind_fails Arch64 true [] []
           (field "UnsupportedType" (sfmatch_tag "a") (TStruct [])) (VPtr None) "[\s\S]*").
  - vm_compute. reflexivity.
  - reflexivity.
  - intros g [].
Defined.

(** The field Skip of the struct of four fields carries the lone dash. *)
Lemma skipped_field_takes_no_part_witness :
  field_tag (field "Skip" "-" (TOther String_)) = "-" /\
  composite_pattern Arch64 "[\s\S]*" mixed_shape =
  composite_pattern Arch64 "[\s\S]*" (skipn 1 mixed_shape) /\
  ~ In 0%nat (indices mixed_matcher) /\
  forall (value' : interface) (oe' : option error),
    Unmarshal Arch64 mixed_matcher "12 true x" (pointer_to mixed_shape mixed_zero) =
    Ok (value', oe') ->
    dest_field value' 0 = dest_field (pointer_to mixed_shape mixed_zero) 0.
Proof.
  split; [vm_compute; reflexivity |].
  destruct (skipped_field_takes_no_part Arch64 true [] (skipn 1 mixed_shape)
              (field "Skip" "-" (TOther String_)) (VPtr None) "[\s\S]*")
    as [Hpattern Hfield].
  - right. left. vm_compute. reflexivity.
  - split; [exact Hpattern |].
    destruct (Hfield mixed_matcher None) as [Hnot Hkept]; [vm_compute; reflexivity |].
    split; [exact Hnot |]. intros value' oe'. apply Hkept.
Defined.

(** A matcher of the exported field A and a destination whose only field
    is not exported. *)
Lemma unsettable_destination_untouched_witness :
  FindStringSubmatch (regex letter_matcher) "a" = Some ["a"; "a"] /\
  Unmarshal Arch64 letter_matcher "a" (pointer_to hidden_shape [VString "kept"]) =
  Ok (pointer_to hidden_shape [VString "kept"], None).
Proof.
  split; [vm_compute; reflexivity |].
  apply (unsettable_destination_untouched Arch64 true letter_shape (VPtr None) "[\s\S]*"
           letter_matcher None "a" ["a"; "a"] hidden_shape [VString "kept"]).
  - vm_compute. reflexivity.
  - vm_compute. reflexivity.
  - intros j Hj. vm_compute in Hj. destruct Hj as [<- | []].
    exists (unexported_field "a" EmptyString (TOther String_)), (VString "kept").
    repeat split.
Defined.

(** The test of no match: the expression of (astolfo) on himegoto. *)
Lemma no_match_no_write_witness :
  FindStringSubmatch (regex nomatch_matcher) "himegoto" = None /\
  Unmarshal Arch64 nomatch_matcher "himegoto" (pointer_to nomatch_shape [VString "kept"]) =
  Ok (pointer_to nomatch_shape [VString "kept"], Some (errors_New "No matches found")).
Proof.
  split; [vm_compute; reflexivity |].
  apply (no_match_no_write Arch64 nomatch_matcher "himegoto"
           (pointer_to nomatch_shape [VString "kept"])).
  vm_compute. reflexivity.
Defined.

(** The pattern and the mode of the matcher of the fragment (a). *)
Lemma matching_mode_witness :
  regexp.Compile ("(?mU)" ++ pattern_body "[\s\S]*" letter_shape) = inl (regex letter_matcher) /\
  regexp.leading_flags ("(?mU)" ++ pattern_body "[\s\S]*" letter_shape) =
  Some {| regexp.FoldCase := false; regexp.MultiLine := true;
          regexp.DotNL := false; regexp.NonGreedy := true |}.
Proof.
  destruct (matching_mode Arch64 true letter_shape (VPtr None) "[\s\S]*" letter_matcher None)
    as [Hpattern Hflags].
  - vm_compute. reflexivity.
  - split; [exact Hpattern | exact Hflags].
Defined.

(** The flags of the prefix hold from the start of the pattern on: a
    fragment that carries the flag group (?i) is matched without regard to
    case from there. *)
Lemma fragment_sets_its_own_flags :
  Compile Arch64 (Iface (TPtr (TStruct folded_shape)) (VPtr None)) =
  Ok (Some folded_matcher, None) /\
  regexp.expr (regex folded_matcher) = "(?mU)[\s\S]*(?i)(a)" /\
  Unmarshal Arch64 folded_matcher "A" (pointer_to folded_shape [VString EmptyString]) =
  Ok (pointer_to folded_shape [VString "A"], None).
Proof. repeat split; vm_compute; reflexivity. Qed.

End Examples.

(** * Further properties *)

(** ** Compilation, case by case *)

Section CompileOutcome.

Context {Regexp : Type} {lib : GoLib Regexp}.
Variable arch : Arch.

Lemma first_unsupported_field_none (rs : list (nat * StructField)) :
  forallb (fun p => supported (field_kind (snd p))) rs = true ->
  first_unsupported_field rs = None.
Proof.
  induction rs as [| [j ft] rs IH]; intros H; [reflexivity |].
  cbn [forallb snd] in H. apply andb_true_iff in H as [Hk H].
  cbn [first_unsupported_field]. rewrite Hk. apply IH, H.
Qed.

Lemma first_unsupported_field_some (rs1 rs2 : list (nat * StructField)) (j : nat)
    (ft : StructField) :
  forallb (fun p => supported (field_kind (snd p))) rs1 = true ->
  supported (field_kind ft) = false ->
  first_unsupported_field (rs1 ++ (j, ft) :: rs2) = Some ft.
Proof.
  intros H1 H2. induction rs1 as [| [j1 g] rs1 IH]; cbn [app first_unsupported_field].
  - rewrite H2. reflexivity.
  - cbn [forallb snd] in H1. apply andb_true_iff in H1 as [Hk H1]. rewrite Hk. apply IH, H1.
Qed.

(** Compilation of a struct shape never panics and returns
    [compile_outcome]. *)
Lemma CompileWithDelimiter_outcome (ptr : bool) (fs : list StructField) (x : GoValue)
    (delim : string) :
  CompileWithDelimiter arch (Iface (of_shape ptr fs) x) delim = Ok (compile_outcome delim fs).
Proof.
  rewrite CompileWithDelimiter_shape. unfold compile_outcome.
  destruct (forallb (fun p => supported (field_kind (snd p))) (recognized_from 0 fs)) eqn:Hall.
  - rewrite compile_loop_ok by exact Hall. cbn [rbind].
    rewrite (first_unsupported_field_none _ Hall).
    rewrite build_composite, build_fields, build_kinds. cbn [builder0 b_fields b_kinds app].
    rewrite List.length_map.
    destruct (regexp_Compile (composite delim fs)) as [r | e]; [| reflexivity].
    destruct (Nat.eqb (NumSubexp r) (length (recognized_from 0 fs))); reflexivity.
  - destruct (first_unsupported _ Hall) as (rs1 & rs2 & j & ft & E & H1 & H2).
    rewrite (compile_loop_err arch delim fs 0 builder0 rs1 rs2 j ft E H1 H2). cbn [rbind].
    rewrite E, (first_unsupported_field_some rs1 rs2 j ft H1 H2). reflexivity.
Qed.

(** X1: compilation of a struct shape never panics and has four outcomes,
    tried in this order: the first recognized field of unsupported kind
    gives "Failed to use field NAME: Unsupported kind" (whatever the
    fragments are); a composite pattern regexp.Compile rejects gives
    "Failed to compile the regex: " before its error; a group count other
    than the number of recognized fields gives "Mismatch field count and
    submatch count"; otherwise the matcher holds the compiled expression,
    the positions and the kinds of the recognized fields in order, and the
    struct type. *)
Theorem compile_case_by_case (ptr : bool) (fs : list StructField) (x : GoValue)
    (delim : string) :
  match first_unsupported_field (recognized_from 0 fs) with
  | Some ft =>
      CompileWithDelimiter arch (Iface (of_shape ptr fs) x) delim =
      Ok (None, Some (fmt_Errorf_w ("Failed to use field " ++ Name ft) ErrUnsupportedKind)) /\
      Error (fmt_Errorf_w ("Failed to use field " ++ Name ft) ErrUnsupportedKind) =
      "Failed to use field " ++ Name ft ++ ": Unsupported kind"
  | None =>
      match regexp_Compile (composite delim fs) with
      | inr e =>
          CompileWithDelimiter arch (Iface (of_shape ptr fs) x) delim =
          Ok (None, Some (errors_Wrap e "Failed to compile the regex")) /\
          Error (errors_Wrap e "Failed to compile the regex") =
          "Failed to compile the regex: " ++ Error e
      | inl r =>
          if Nat.eqb (NumSubexp r) (length (recognized_from 0 fs))
          then CompileWithDelimiter arch (Iface (of_shape ptr fs) x) delim =
               Ok (Some {| regex := r;
                           indices := map fst (recognized_from 0 fs);
                           kinds := map (fun p => field_kind (snd p)) (recognized_from 0 fs);
                           vtype := TStruct fs |}, None)
          else CompileWithDelimiter arch (Iface (of_shape ptr fs) x) delim =
               Ok (None, Some (errors_New "Mismatch field count and submatch count"))
      end
  end.
Proof.
  rewrite CompileWithDelimiter_outcome. unfold compile_outcome.
  destruct (first_unsupported_field (recognized_from 0 fs)) as [ft |]; [split; reflexivity |].
  destruct (regexp_Compile (composite delim fs)) as [r | e]; [| split; reflexivity].
  destruct (Nat.eqb (NumSubexp r) (length (recognized_from 0 fs))); reflexivity.
Qed.

(** The outcome is a matcher or an error, never both and never neither. *)
Lemma compile_outcome_cases (delim : string) (fs : list StructField) :
  (exists m : Match Regexp, compile_outcome delim fs = (Some m, None)) \/
  (exists e : error, compile_outcome delim fs = (None, Some e)).
Proof.
  unfold compile_outcome.
  destruct (first_unsupported_field (recognized_from 0 fs)) as [ft |]; [eauto |].
  destruct (regexp_Compile (composite delim fs)) as [r | e]; [| eauto].
  destruct (Nat.eqb (NumSubexp r) (length (recognized_from 0 fs))); eauto.
Qed.

(** X2: on a struct shape [MustCompile] returns a matcher exactly when
    [Compile] returns it without an error, and panics exactly when
    [Compile] returns an error, with the text of that error; it does
    nothing else. *)
Theorem MustCompile_returns_or_panics (ptr : bool) (fs : list StructField) (x : GoValue) :
  (forall m : Match Regexp,
      MustCompile arch (Iface (of_shape ptr fs) x) = Ok m <->
      Compile arch (Iface (of_shape ptr fs) x) = Ok (Some m, None)) /\
  (forall msg : string,
      MustCompile arch (Iface (of_shape ptr fs) x) = Panic msg <->
      exists e : error,
        Compile arch (Iface (of_shape ptr fs) x) = Ok (None, Some e) /\ Error e = msg).
Proof.
  unfold MustCompile, Compile. rewrite CompileWithDelimiter_outcome. cbn [rbind].
  destruct (compile_outcome_cases "[\s\S]*" fs) as [[m0 ->] | [e0 ->]]; split.
  - intros m. split; intros H; injection H as <-; reflexivity.
  - intros msg. split; [discriminate | intros (e & H & _); discriminate].
  - intros m. split; discriminate.
  - intros msg. split.
    + intros H. injection H as <-. eauto.
    + intros (e & H & <-). injection H as <-. reflexivity.
Qed.

(** X3: compilation panics instead of returning an error when its argument
    is nil, is neither a struct nor a pointer, or is a pointer to something
    that is not a struct. *)
Theorem compile_panics_without_struct (t : GoType) (x p : GoValue) (delim : string) :
  (forall fs : list StructField, t <> TStruct fs) ->
  CompileWithDelimiter arch nil_interface delim =
    Panic "runtime error: invalid memory address or nil pointer dereference" /\
  CompileWithDelimiter arch (Iface (TPtr t) p) delim =
    Panic "reflect: NumField of non-struct type" /\
  (Type_Kind t <> Ptr ->
   CompileWithDelimiter arch (Iface t x) delim = Panic "reflect: NumField of non-struct type").
Proof.
  intros Ht. split; [reflexivity |]. split.
  - destruct t as [k | e | fs]; [reflexivity | reflexivity |]. contradiction (Ht fs). reflexivity.
  - intros Hk. unfold CompileWithDelimiter. cbn [TypeOf]. unfold Kind_eqb.
    destruct (Kind_eq_dec (Type_Kind t) Ptr) as [E | _]; [contradiction |]. cbn [rbind].
    destruct t as [k | e | fs]; [reflexivity | reflexivity |]. contradiction (Ht fs). reflexivity.
Qed.

(** X4: what every compiled matcher keeps: as many positions as kinds and
    as capturing groups, the struct type it was compiled from, positions
    that grow strictly, and at each position an exported field of the
    struct whose kind is supported and is the kind the matcher holds. *)
Theorem matcher_invariant (ptr : bool) (fs : list StructField) (x : GoValue)
    (delim : string) (m : Match Regexp) (oe : option error) :
  CompileWithDelimiter arch (Iface (of_shape ptr fs) x) delim = Ok (Some m, oe) ->
  length (kinds m) = length (indices m) /\
  NumSubexp (regex m) = length (indices m) /\
  vtype m = TStruct fs /\
  (forall n j : nat,
      indices m !! n = Some j ->
      exists ft : StructField,
        fs !! j = Some ft /\ exported ft = true /\
        kinds m !! n = Some (field_kind ft) /\ supported (field_kind ft) = true) /\
  (forall n1 n2 j1 j2 : nat,
      (n1 < n2)%nat -> indices m !! n1 = Some j1 -> indices m !! n2 = Some j2 ->
      (j1 < j2)%nat).
Proof.
  intros Hc.
  destruct (compiled_inv arch _ _ _ _ _ _ Hc) as (_ & _ & _ & Hn & Hi & Hk & Ht).
  split; [rewrite Hk, Hi, !List.length_map; reflexivity |].
  split; [rewrite Hn, Hi, List.length_map; reflexivity |].
  split; [exact Ht |]. split.
  - intros n j Hj.
    destruct (compiled_positions arch _ _ _ _ _ _ _ _ Hc Hj) as (ft & Hft & Hr & Hkind & Hsup).
    exists ft. repeat split; try assumption.
    unfold recognized in Hr. apply andb_true_iff in Hr as [Hr _]. exact Hr.
  - rewrite Hi. apply recognized_from_increasing.
Qed.

End CompileOutcome.

(** ** Unmarshal into a struct of the compiled shape *)

Section UnmarshalOutcome.

Context {Regexp : Type} {lib : GoLib Regexp}.
Variable arch : Arch.

Lemma positions_ok_tail (m : Match Regexp) (s : list string) (fs : list StructField)
    (i j : nat) (js : list nat) :
  positions_ok m s fs i (j :: js) -> positions_ok m s fs (S i) js.
Proof.
  intros H n j' Hn. specialize (H (S n) j' Hn). rewrite Nat.add_succ_r in H. exact H.
Qed.

Lemma compiled_positions_ok (ptr : bool) (fs : list StructField) (x : GoValue)
    (delim : string) (m : Match Regexp) (oe : option error) (data : string)
    (s : list string) :
  CompileWithDelimiter arch (Iface (of_shape ptr fs) x) delim = Ok (Some m, oe) ->
  FindStringSubmatch (regex m) data = Some s ->
  positions_ok m s fs 0 (indices m).
Proof.
  intros Hc Hs n j Hn.
  destruct (compiled_positions arch _ _ _ _ _ _ _ _ Hc Hn) as (ft & Hft & Hr & Hk & Hsup).
  destruct (compiled_submatch arch _ _ _ _ _ _ _ _ _ _ Hc Hs Hn) as [text Htext].
  exists ft, text. cbn [Nat.add]. auto 10.
Qed.

Lemma compiled_increasing (ptr : bool) (fs : list StructField) (x : GoValue)
    (delim : string) (m : Match Regexp) (oe : option error) :
  CompileWithDelimiter arch (Iface (of_shape ptr fs) x) delim = Ok (Some m, oe) ->
  forall n1 n2 j1 j2 : nat,
    (n1 < n2)%nat -> indices m !! n1 = Some j1 -> indices m !! n2 = Some j2 -> (j1 < j2)%nat.
Proof.
  intros Hc. destruct (compiled_inv arch _ _ _ _ _ _ Hc) as (_ & _ & _ & _ & Hi & _ & _).
  rewrite Hi. apply recognized_from_increasing.
Qed.

(** Every conversion from position [i] on succeeds, or there is a first
    one that fails. *)
Lemma conversions_dichotomy (m : Match Regexp) (s : list string) (fs : list StructField)
    (js : list nat) :
  forall i : nat,
    positions_ok m s fs i js ->
    (forall n j : nat,
        js !! n = Some j ->
        exists y : GoValue, conversion arch m s (i + n) = Some (Ok (inr y))) \/
    (exists (p k : nat) (e : error),
        js !! p = Some k /\
        conversion arch m s (i + p) = Some (Ok (inl e)) /\
        forall n : nat, (n < p)%nat ->
                        exists y : GoValue, conversion arch m s (i + n) = Some (Ok (inr y))).
Proof.
  induction js as [| j rest IH]; intros i Hwf; [left; intros n j H; discriminate |].
  destruct (Hwf 0%nat j eq_refl) as (ft & text & _ & _ & Hk & Hsup & Htext).
  rewrite Nat.add_0_r in Hk, Htext.
  destruct (typeParser_convert arch (field_kind ft) text VOther Hsup) as (c & Hc & _).
  assert (Hconv : conversion arch m s i = Some (Ok c)).
  { unfold conversion. rewrite Hk, Htext, Hc. reflexivity. }
  destruct c as [e | y].
  - right. exists 0%nat, j, e. rewrite Nat.add_0_r.
    split; [reflexivity |]. split; [exact Hconv | intros n Hn; lia].
  - destruct (IH (S i) (positions_ok_tail _ _ _ _ _ _ Hwf)) as [Hall | (p & k & e & Hp & He & Hbefore)].
    + left. intros [| n] j' Hn.
      * rewrite Nat.add_0_r. eauto.
      * rewrite Nat.add_succ_r. apply (Hall n j' Hn).
    + right. exists (S p), k, e. split; [exact Hp |].
      split; [rewrite Nat.add_succ_r; exact He |].
      intros [| n] Hn.
      * rewrite Nat.add_0_r. eauto.
      * rewrite Nat.add_succ_r. apply Hbefore. lia.
Qed.

(** The loop on a settable struct of the compiled shape when every text
    converts: every visited field holds its converted value, every other
    field is as it was, and there is no error. *)
Lemma unmarshal_loop_all_converted (m : Match Regexp) (s : list string)
    (fs : list StructField) (js : list nat) :
  forall (i : nat) (xs : list GoValue),
    length xs = length fs ->
    positions_ok m s fs i js ->
    (forall n1 n2 j1 j2 : nat,
        (n1 < n2)%nat -> js !! n1 = Some j1 -> js !! n2 = Some j2 -> (j1 < j2)%nat) ->
    (forall n j : nat,
        js !! n = Some j ->
        exists y : GoValue, conversion arch m s (i + n) = Some (Ok (inr y))) ->
    exists xs' : list GoValue,
      unmarshal_loop arch (kinds m) s i js (MkValue (TStruct fs) true false (VStruct xs)) =
      Ok (MkValue (TStruct fs) true false (VStruct xs'), None) /\
      length xs' = length xs /\
      (forall n j : nat,
          js !! n = Some j ->
          exists y : GoValue,
            conversion arch m s (i + n) = Some (Ok (inr y)) /\ xs' !! j = Some y) /\
      (forall j : nat, ~ In j js -> xs' !! j = xs !! j).
Proof.
  induction js as [| j rest IH]; intros i xs Hlen Hwf Hinc Hall.
  - exists xs. cbn [unmarshal_loop]. repeat split; intros n j H; discriminate.
  - destruct (Hwf 0%nat j eq_refl) as (ft & text & Hft & Hrec & Hk & Hsup & Htext).
    rewrite Nat.add_0_r in Hk, Htext.
    assert (Hexp : exported ft = true).
    { unfold recognized in Hrec. apply andb_true_iff in Hrec as [H _]. exact H. }
    assert (Hj : (j < length xs)%nat).
    { rewrite Hlen. eapply lookup_lt_Some. exact Hft. }
    destruct (lookup_lt_is_Some_2 xs j Hj) as [xj Hxj].
    destruct (typeParser_convert arch (field_kind ft) text xj Hsup) as (c & Hc & Htp).
    assert (Hconv : conversion arch m s i = Some (Ok c)).
    { unfold conversion. rewrite Hk, Htext, Hc. reflexivity. }
    destruct (Hall 0%nat j eq_refl) as [y Hy]. rewrite Nat.add_0_r, Hconv in Hy.
    injection Hy as ->.
    cbn [unmarshal_loop]. rewrite Hk, Htext. cbn [Value_Field]. rewrite Hft, Hxj.
    rewrite Hexp. cbn [negb orb rbind].
    rewrite (supported_leaf (Type_ ft) Hsup). fold (field_kind ft). rewrite Htp.
    cbn [rbind fst snd store_field].
    destruct (IH (S i) (<[j:=y]> xs)) as (xs' & Hrun & Hlen' & Hdone & Hframe).
    + rewrite length_insert. exact Hlen.
    + eapply positions_ok_tail. exact Hwf.
    + intros n1 n2 j1 j2 Hlt H1 H2. apply (Hinc (S n1) (S n2)); [lia | exact H1 | exact H2].
    + intros n j' Hn. specialize (Hall (S n) j' Hn). rewrite Nat.add_succ_r in Hall. exact Hall.
    + exists xs'. split; [exact Hrun |].
      split; [rewrite Hlen', length_insert; reflexivity |]. split.
      * intros [| n] j' Hj'.
        -- injection Hj' as Hj'. subst j'. exists y. rewrite Nat.add_0_r.
           split; [exact Hconv |].
           rewrite Hframe; [apply list_lookup_insert_eq; exact Hj |].
           intros Hin. apply list_elem_of_In, list_elem_of_lookup_1 in Hin as [n Hn].
           specialize (Hinc 0%nat (S n) j j ltac:(lia) eq_refl Hn). lia.
        -- destruct (Hdone n j' Hj') as (y' & Hy' & Hl).
           exists y'. rewrite Nat.add_succ_r. auto.
      * intros j0 Hj0. rewrite Hframe.
        -- apply list_lookup_insert_ne. intros E. subst j0. apply Hj0. left. reflexivity.
        -- intros Hin. apply Hj0. right. exact Hin.
Qed.

(** [Unmarshal] into a pointer to a struct, once the input has matched. *)
Lemma Unmarshal_pointer_to (m : Match Regexp) (data : string) (s : list string)
    (fs : list StructField) (xs : list GoValue) :
  FindStringSubmatch (regex m) data = Some s ->
  Unmarshal arch m data (pointer_to fs xs) =
  do r <- unmarshal_loop arch (kinds m) s 0 (indices m)
            (MkValue (TStruct fs) true false (VStruct xs));
  Ok (store_back (pointer_to fs xs) (fst r), snd r).
Proof. intros Hs. unfold Unmarshal. rewrite Hs. reflexivity. Qed.

(** X5: when the input matches and every captured text converts, unmarshal
    into a struct of the compiled shape returns no error, every recognized
    field holds the converted text of its group (group i+1 for the i-th
    recognized field), whatever it held before, and every other field is as
    it was. *)
Theorem unmarshal_writes_every_field (ptr : bool) (fs : list StructField) (x0 : GoValue)
    (delim : string) (m : Match Regexp) (oe : option error) (data : string)
    (s : list string) (xs : list GoValue) :
  CompileWithDelimiter arch (Iface (of_shape ptr fs) x0) delim = Ok (Some m, oe) ->
  FindStringSubmatch (regex m) data = Some s ->
  length xs = length fs ->
  (forall n j : nat,
      indices m !! n = Some j ->
      exists y : GoValue, conversion arch m s n = Some (Ok (inr y))) ->
  exists xs' : list GoValue,
    Unmarshal arch m data (pointer_to fs xs) = Ok (pointer_to fs xs', None) /\
    length xs' = length xs /\
    (forall n j : nat,
        indices m !! n = Some j ->
        exists y : GoValue, conversion arch m s n = Some (Ok (inr y)) /\ xs' !! j = Some y) /\
    (forall j : nat, ~ In j (indices m) -> xs' !! j = xs !! j).
Proof.
  intros Hc Hs Hlen Hall.
  destruct (unmarshal_loop_all_converted m s fs (indices m) 0 xs Hlen
              (compiled_positions_ok _ _ _ _ _ _ _ _ Hc Hs)
              (compiled_increasing _ _ _ _ _ _ Hc) Hall)
    as (xs' & Hrun & Hlen' & Hdone & Hframe).
  exists xs'. rewrite (Unmarshal_pointer_to m data s fs xs Hs), Hrun.
  repeat split; assumption.
Qed.

(** X6: unmarshal into a struct of the compiled shape never panics: it
    returns, with a struct of the same length, and the error it returns is
    nil exactly when every captured text converts. *)
Theorem unmarshal_returns (ptr : bool) (fs : list StructField) (x0 : GoValue)
    (delim : string) (m : Match Regexp) (oe : option error) (data : string)
    (s : list string) (xs : list GoValue) :
  CompileWithDelimiter arch (Iface (of_shape ptr fs) x0) delim = Ok (Some m, oe) ->
  FindStringSubmatch (regex m) data = Some s ->
  length xs = length fs ->
  exists (xs' : list GoValue) (err : option error),
    Unmarshal arch m data (pointer_to fs xs) = Ok (pointer_to fs xs', err) /\
    length xs' = length xs /\
    (err = None <->
     forall n j : nat,
       indices m !! n = Some j ->
       exists y : GoValue, conversion arch m s n = Some (Ok (inr y))).
Proof.
  intros Hc Hs Hlen.
  pose proof (compiled_positions_ok _ _ _ _ _ _ _ _ Hc Hs) as Hwf.
  pose proof (compiled_increasing _ _ _ _ _ _ Hc) as Hinc.
  rewrite (Unmarshal_pointer_to m data s fs xs Hs).
  destruct (conversions_dichotomy m s fs (indices m) 0 Hwf)
    as [Hall | (p & k & e & Hp & He & Hbefore)].
  - destruct (unmarshal_loop_all_converted m s fs (indices m) 0 xs Hlen Hwf Hinc Hall)
      as (xs' & Hrun & Hlen' & _).
    exists xs', None. rewrite Hrun. repeat split; auto.
  - destruct (unmarshal_loop_first_failure arch m s fs (indices m) 0 p k e xs
                Hlen Hwf Hinc Hp He Hbefore) as (xs' & Hrun & Hlen' & _).
    eexists xs', _. rewrite Hrun. split; [reflexivity |]. split; [exact Hlen' |].
    split; [discriminate |].
    intros Hall. destruct (Hall p k Hp) as [y Hy]. cbn [Nat.add] in He.
    rewrite He in Hy. discriminate.
Qed.

(** X7: a successful unmarshal is idempotent: the same input unmarshalled
    again into the struct it has filled returns no error and leaves the
    struct as it is. *)
Theorem unmarshal_idempotent (ptr : bool) (fs : list StructField) (x0 : GoValue)
    (delim : string) (m : Match Regexp) (oe : option error) (data : string)
    (xs : list GoValue) (value' : interface) :
  CompileWithDelimiter arch (Iface (of_shape ptr fs) x0) delim = Ok (Some m, oe) ->
  length xs = length fs ->
  Unmarshal arch m data (pointer_to fs xs) = Ok (value', None) ->
  Unmarshal arch m data value' = Ok (value', None).
Proof.
  intros Hc Hlen Hrun.
  destruct (FindStringSubmatch (regex m) data) as [s |] eqn:Hs;
    [| unfold Unmarshal in Hrun; rewrite Hs in Hrun; discriminate].
  pose proof (compiled_positions_ok _ _ _ _ _ _ _ _ Hc Hs) as Hwf.
  pose proof (compiled_increasing _ _ _ _ _ _ Hc) as Hinc.
  rewrite (Unmarshal_pointer_to m data s fs xs Hs) in Hrun.
  destruct (conversions_dichotomy m s fs (indices m) 0 Hwf)
    as [Hall | (p & k & e & Hp & He & Hbefore)].
  - destruct (unmarshal_loop_all_converted m s fs (indices m) 0 xs Hlen Hwf Hinc Hall)
      as (xs' & Hrun' & Hlen' & Hdone & _).
    rewrite Hrun' in Hrun. cbn [rbind fst snd store_back pointer_to] in Hrun.
    injection Hrun as <-. fold (pointer_to fs xs').
    destruct (unmarshal_loop_all_converted m s fs (indices m) 0 xs'
                ltac:(congruence) Hwf Hinc Hall)
      as (xs'' & Hrun'' & Hlen'' & Hdone' & Hframe').
    rewrite (Unmarshal_pointer_to m data s fs xs' Hs), Hrun''.
    cbn [rbind fst snd store_back pointer_to].
    assert (E : xs'' = xs').
    { apply list_eq. intros j.
      destruct (in_dec Nat.eq_dec j (indices m)) as [Hin | Hout].
      - apply list_elem_of_In, list_elem_of_lookup_1 in Hin as [n Hn].
        destruct (Hdone n j Hn) as (y & Hy & Hl).
        destruct (Hdone' n j Hn) as (y' & Hy' & Hl').
        rewrite Hy in Hy'. injection Hy' as <-. rewrite Hl, Hl'. reflexivity.
      - apply Hframe', Hout. }
    rewrite E. reflexivity.
  - destruct (unmarshal_loop_first_failure arch m s fs (indices m) 0 p k e xs
                Hlen Hwf Hinc Hp He Hbefore) as (xs' & Hrun' & _).
    rewrite Hrun' in Hrun. discriminate.
Qed.

(** X8: when every recognized field of the shape is text, unmarshal into a
    struct of that shape returns no error on every input that matches, and
    each recognized field holds its captured substring verbatim. *)
Theorem text_fields_hold_captures (ptr : bool) (fs : list StructField) (x0 : GoValue)
    (delim : string) (m : Match Regexp) (oe : option error) (data : string)
    (s : list string) (xs : list GoValue) :
  CompileWithDelimiter arch (Iface (of_shape ptr fs) x0) delim = Ok (Some m, oe) ->
  FindStringSubmatch (regex m) data = Some s ->
  length xs = length fs ->
  (forall ft : StructField, In ft fs -> recognized ft = true -> field_kind ft = String_) ->
  exists xs' : list GoValue,
    Unmarshal arch m data (pointer_to fs xs) = Ok (pointer_to fs xs', None) /\
    forall n j : nat,
      indices m !! n = Some j ->
      exists text : string, s !! S n = Some text /\ xs' !! j = Some (VString text).
Proof.
  intros Hc Hs Hlen Htext.
  pose proof (compiled_positions_ok _ _ _ _ _ _ _ _ Hc Hs) as Hwf.
  assert (Hconv : forall n j : nat,
             indices m !! n = Some j ->
             exists text : string,
               s !! S n = Some text /\
               conversion arch m s n = Some (Ok (inr (VString text)))).
  { intros n j Hn. destruct (Hwf n j Hn) as (ft & text & Hft & Hr & Hk & _ & Ht).
    cbn [Nat.add] in Hk, Ht. exists text. split; [exact Ht |].
    unfold conversion. rewrite Hk, Ht.
    rewrite (Htext ft); [reflexivity | | exact Hr].
    apply list_elem_of_In. eapply list_elem_of_lookup_2. exact Hft. }
  destruct (unmarshal_loop_all_converted m s fs (indices m) 0 xs Hlen Hwf
              (compiled_increasing _ _ _ _ _ _ Hc))
    as (xs' & Hrun & _ & Hdone & _).
  { intros n j Hn. destruct (Hconv n j Hn) as (text & _ & H). eauto. }
  exists xs'. rewrite (Unmarshal_pointer_to m data s fs xs Hs), Hrun.
  split; [reflexivity |].
  intros n j Hn. destruct (Hconv n j Hn) as (text & Ht & Hc').
  destruct (Hdone n j Hn) as (y & Hy & Hl). cbn [Nat.add] in Hy.
  rewrite Hc' in Hy. injection Hy as <-. eauto.
Qed.

End UnmarshalOutcome.

(** ** Destinations unmarshal does not accept *)

Section Destinations.

Context {Regexp : Type} {lib : GoLib Regexp}.
Variable arch : Arch.

(** X9: once the input has matched, unmarshal panics on a destination that
    is nil or is not a pointer, whatever the matcher; it reaches neither
    the conversions nor any field. *)
Theorem unmarshal_needs_pointer (m : Match Regexp) (data : string) (s : list string)
    (t : GoType) (x : GoValue) :
  FindStringSubmatch (regex m) data = Some s ->
  (forall e : GoType, t <> TPtr e) ->
  Unmarshal arch m data (Iface t x) =
    Panic "reflect: call of reflect.Value.Elem on non-pointer Value" /\
  Unmarshal arch m data nil_interface =
    Panic "reflect: call of reflect.Value.Elem on non-pointer Value".
Proof.
  intros Hs Ht. unfold Unmarshal. rewrite Hs. split; [| reflexivity].
  destruct t as [k | e | fs]; [reflexivity | | reflexivity]. contradiction (Ht e). reflexivity.
Qed.

(** X10: once the input has matched, unmarshal into a nil pointer returns
    no error when the matcher has no recognized field, and panics at the
    first field otherwise. *)
Theorem unmarshal_nil_pointer (m : Match Regexp) (data : string) (s : list string)
    (e : GoType) :
  FindStringSubmatch (regex m) data = Some s ->
  (indices m = [] ->
   Unmarshal arch m data (Iface (TPtr e) (VPtr None)) = Ok (Iface (TPtr e) (VPtr None), None)) /\
  (indices m <> [] ->
   exists msg : string, Unmarshal arch m data (Iface (TPtr e) (VPtr None)) = Panic msg).
Proof.
  intros Hs. unfold Unmarshal. rewrite Hs. cbn [ValueOf Value_Elem rbind]. split.
  - intros ->. reflexivity.
  - intros Hne. destruct (indices m) as [| j rest]; [contradiction |].
    cbn [unmarshal_loop]. destruct (kinds m !! 0%nat); [| cbn; eauto].
    destruct (s !! 1%nat); cbn; eauto.
Qed.

(** X11: [typeParser] does not check the kind of the Value against the
    kind it is given. On a settable Value of another family of kinds it
    panics when the text converts, and returns the conversion error,
    leaving the Value alone, when the text does not convert; on a settable
    Value of the same family it never panics. *)
Theorem typeParser_kind_mismatch (k k' : Kind) (text : string) (x : GoValue) :
  supported k = true ->
  (family_of k' <> family_of k ->
   match convert arch k text with
   | Ok (inr _) => exists msg : string, typeParser arch k text (variable k' x) = Panic msg
   | Ok (inl e) => typeParser arch k text (variable k' x) = Ok (Some e, variable k' x)
   | Panic _ => False
   end) /\
  (family_of k' = family_of k ->
   exists r : option error * Value, typeParser arch k text (variable k' x) = Ok r).
Proof.
  intros Hk. unfold convert.
  destruct k; try discriminate Hk; cbn [typeParser variable CanSet andb negb];
    match goal with
    | |- context [strconv.ParseBool text] => destruct (strconv.ParseBool text) as [? [? |]]
    | |- context [strconv.ParseInt text 10 64] =>
        destruct (strconv.ParseInt text 10 64) as [? [? |]]
    | |- context [strconv.ParseUint text 10 64] =>
        destruct (strconv.ParseUint text 10 64) as [? [? |]]
    | |- context [ParseFloat text 64] => destruct (ParseFloat text 64) as [? [? |]]
    | |- _ => idtac
    end;
    (split; intros Hf;
     [ try reflexivity; destruct k'; cbn in Hf |- *; try congruence; eauto
     | destruct k'; cbn in Hf |- *; try discriminate Hf; eauto ]).
Qed.

End Destinations.

(** ** Integer fields narrower than 64 bits *)

Section IntegerWidth.

Context {Regexp : Type} {lib : GoLib Regexp}.
Variable arch : Arch.

Lemma wrap_signed_spec (w z : Z) :
  0 < w ->
  - 2 ^ (w - 1) <= wrap_signed w z < 2 ^ (w - 1) /\
  (wrap_signed w z - z) mod 2 ^ w = 0 /\
  (wrap_signed w z = z <-> - 2 ^ (w - 1) <= z < 2 ^ (w - 1)).
Proof.
  intros Hw. unfold wrap_signed.
  assert (Hpow : 2 ^ w = 2 * 2 ^ (w - 1)).
  { rewrite <- Z.pow_succ_r by lia. f_equal. lia. }
  assert (Hh : 0 < 2 ^ (w - 1)) by (apply Z.pow_pos_nonneg; lia).
  set (h := 2 ^ (w - 1)) in *. rewrite Hpow.
  pose proof (Z.mod_pos_bound (z + h) (2 * h) ltac:(lia)) as Hb.
  pose proof (Z.div_mod (z + h) (2 * h) ltac:(lia)) as Hd.
  split; [lia |]. split.
  - replace ((z + h) mod (2 * h) - h - z) with (- ((z + h) / (2 * h)) * (2 * h)) by lia.
    apply Z.mod_mul. lia.
  - split; [intros E; lia |].
    intros Hz. rewrite Z.mod_small by lia. lia.
Qed.

Lemma wrap_unsigned_spec (w z : Z) :
  0 < w ->
  0 <= wrap_unsigned w z < 2 ^ w /\
  (wrap_unsigned w z - z) mod 2 ^ w = 0 /\
  (wrap_unsigned w z = z <-> 0 <= z < 2 ^ w).
Proof.
  intros Hw. unfold wrap_unsigned.
  assert (Hh : 0 < 2 ^ w) by (apply Z.pow_pos_nonneg; lia).
  pose proof (Z.mod_pos_bound z (2 ^ w) Hh) as Hb.
  pose proof (Z.div_mod z (2 ^ w) ltac:(lia)) as Hd.
  split; [lia |]. split.
  - replace (z mod 2 ^ w - z) with (- (z / 2 ^ w) * 2 ^ w) by lia.
    apply Z.mod_mul. lia.
  - split; [intros E; lia |]. intros Hz. apply Z.mod_small. lia.
Qed.

Lemma kind_bits_pos (k : Kind) :
  In k signed_kinds \/ In k unsigned_kinds -> 0 < kind_bits arch k.
Proof.
  intros [H | H]; cbn in H; decompose [or] H; try contradiction; subst k;
    destruct arch; cbn; lia.
Qed.

(** X12: a signed integer field of any width accepts every base-10 text in
    the range of 64 bits. What it then holds is in the range of its own
    width, differs from the number of the text by a multiple of 2 ^ width,
    and is that number exactly when the number fits the width. *)
Theorem signed_field_exact_iff_fits (k : Kind) (text : string) (x : GoValue) (z : Z) :
  In k signed_kinds ->
  signed_decimal text = Some z ->
  - 2 ^ 63 <= z < 2 ^ 63 ->
  exists z' : Z,
    typeParser arch k text (variable k x) = Ok (None, variable k (VInt z')) /\
    - 2 ^ (kind_bits arch k - 1) <= z' < 2 ^ (kind_bits arch k - 1) /\
    (z' - z) mod 2 ^ kind_bits arch k = 0 /\
    (z' = z <-> - 2 ^ (kind_bits arch k - 1) <= z < 2 ^ (kind_bits arch k - 1)).
Proof.
  intros Hk Ht Hz. pose proof (signed_field arch k text x Hk) as H. rewrite Ht in H.
  destruct ((- 2 ^ 63 <=? z) && (z <? 2 ^ 63)) eqn:Hr.
  - exists (wrap_signed (kind_bits arch k) z). split; [exact H |].
    apply wrap_signed_spec, kind_bits_pos. left. exact Hk.
  - apply andb_false_iff in Hr as [Hr | Hr];
      [apply Z.leb_gt in Hr | apply Z.ltb_ge in Hr]; lia.
Qed.

(** X13: an unsigned integer field of any width accepts every base-10 text
    below 2 ^ 64. What it then holds is below 2 ^ width, differs from the
    number of the text by a multiple of 2 ^ width, and is that number
    exactly when the number is below 2 ^ width. *)
Theorem unsigned_field_exact_iff_fits (k : Kind) (text : string) (x : GoValue) (z : Z) :
  In k unsigned_kinds ->
  decimal text = Some z ->
  z < 2 ^ 64 ->
  exists z' : Z,
    typeParser arch k text (variable k x) = Ok (None, variable k (VUint z')) /\
    0 <= z' < 2 ^ kind_bits arch k /\
    (z' - z) mod 2 ^ kind_bits arch k = 0 /\
    (z' = z <-> 0 <= z < 2 ^ kind_bits arch k).
Proof.
  intros Hk Ht Hz. pose proof (unsigned_field arch k text x Hk) as H. rewrite Ht in H.
  destruct (z <? 2 ^ 64) eqn:Hr; [| apply Z.ltb_ge in Hr; lia].
  exists (wrap_unsigned (kind_bits arch k) z). split; [exact H |].
  apply wrap_unsigned_spec, kind_bits_pos. right. exact Hk.
Qed.

End IntegerWidth.

(** ** Tags without a key *)

Section ElidedKey.

Context {Regexp : Type} {lib : GoLib Regexp}.

Lemma no_quote_skip_spaces (tag : string) :
  no_quote tag = true -> no_quote (skip_spaces tag) = true.
Proof.
  induction tag as [| c rest IH]; intros H; [reflexivity |].
  cbn [skip_spaces]. destruct (Ascii.eqb c " "); [| exact H].
  cbn [no_quote] in H. apply andb_true_iff in H as [_ H]. apply IH, H.
Qed.

Lemma no_quote_scan_name (tag : string) :
  no_quote tag = true -> no_quote (snd (scan_name tag)) = true.
Proof.
  induction tag as [| c rest IH]; intros H; [reflexivity |].
  cbn [scan_name].
  destruct ((32 <? strconv.byte_of c) && negb (Ascii.eqb c ":") &&
            negb (Ascii.eqb c dquote) && negb (strconv.byte_of c =? 127)); [| exact H].
  cbn [no_quote] in H. apply andb_true_iff in H as [_ H].
  specialize (IH H). destruct (scan_name rest) as [name tl]. exact IH.
Qed.

(** [StructTag.Lookup] finds no key in a tag without a double quote. *)
Lemma Tag_Lookup_no_quote (key : string) (fuel : nat) :
  forall tag : string,
    no_quote tag = true -> Tag_Lookup_loop Unquote fuel tag key = (EmptyString, false).
Proof.
  destruct fuel as [| fuel]; intros tag H; [reflexivity |].
  cbn [Tag_Lookup_loop].
  pose proof (no_quote_scan_name _ (no_quote_skip_spaces _ H)) as Htl.
  destruct (String.eqb (skip_spaces tag) EmptyString); [reflexivity |].
  destruct (scan_name (skip_spaces tag)) as [name tl]. cbn [snd] in Htl.
  destruct tl as [| c1 [| c2 tl']]; try reflexivity.
  cbn [no_quote] in Htl. apply andb_true_iff in Htl as [_ Htl].
  apply andb_true_iff in Htl as [Hc2 _]. rewrite Hc2, orb_true_r. reflexivity.
Qed.

(** X14: a tag without a double quote has no key, so the whole tag is the
    fragment of the field: the key may be elided. *)
Theorem elided_key_uses_whole_tag (ft : StructField) :
  no_quote (Tag ft) = true -> field_tag ft = Tag ft.
Proof.
  intros H. unfold field_tag, Tag_Lookup. rewrite Tag_Lookup_no_quote by exact H. reflexivity.
Qed.

End ElidedKey.

(** ** The further properties on concrete input *)

Section FurtherExamples.

(** An int, neither struct nor pointer, and pointers to it. *)
Lemma compile_panics_without_struct_witness :
  CompileWithDelimiter Arch64 nil_interface "[\s\S]*" =
    Panic "runtime error: invalid memory address or nil pointer dereference" /\
  CompileWithDelimiter Arch64 (Iface (TPtr (TOther Int)) (VPtr None)) "[\s\S]*" =
    Panic "reflect: NumField of non-struct type" /\
  (Type_Kind (TOther Int) <> Ptr ->
   CompileWithDelimiter Arch64 (Iface (TOther Int) (VInt 0)) "[\s\S]*" =
   Panic "reflect: NumField of non-struct type").
Proof.
  apply (compile_panics_without_struct (lib := go_lib) Arch64 (TOther Int) (VInt 0) (VPtr None)).
  intros fs. discriminate.
Defined.

(** The matcher of the struct of four fields. *)
Lemma matcher_invariant_witness :
  length (kinds mixed_matcher) = length (indices mixed_matcher) /\
  NumSubexp (regex mixed_matcher) = length (indices mixed_matcher) /\
  vtype mixed_matcher = TStruct mixed_shape /\
  (forall n j : nat,
      indices mixed_matcher !! n = Some j ->
      exists ft : StructField,
        mixed_shape !! j = Some ft /\ exported ft = true /\
        kinds mixed_matcher !! n = Some (field_kind ft) /\ supported (field_kind ft) = true) /\
  (forall n1 n2 j1 j2 : nat,
      (n1 < n2)%nat -> indices mixed_matcher !! n1 = Some j1 ->
      indices mixed_matcher !! n2 = Some j2 -> (j1 < j2)%nat).
Proof.
  apply (matcher_invariant Arch64 true mixed_shape (VPtr None) "[\s\S]*" mixed_matcher None).
  vm_compute. reflexivity.
Defined.

(** The texts the struct of four fields captures in [1 true x]: 1, t and
    r, which all convert. *)
Lemma mixed_conversions :
  forall n j : nat,
    indices mixed_matcher !! n = Some j ->
    exists y : GoValue,
      conversion Arch64 mixed_matcher ["1 tr"; "1"; "t"; "r"] n = Some (Ok (inr y)).
Proof.
  intros [| [| [| n]]] j Hn;
    [exists (VInt 1) | exists (VBool true) | exists (VString "r") | discriminate Hn];
    vm_compute; reflexivity.
Defined.

Lemma unmarshal_writes_every_field_witness :
  exists xs' : list GoValue,
    Unmarshal Arch64 mixed_matcher "1 true x" (pointer_to mixed_shape mixed_zero) =
    Ok (pointer_to mixed_shape xs', None) /\
    length xs' = length mixed_zero /\
    (forall n j : nat,
        indices mixed_matcher !! n = Some j ->
        exists y : GoValue,
          conversion Arch64 mixed_matcher ["1 tr"; "1"; "t"; "r"] n = Some (Ok (inr y)) /\
          xs' !! j = Some y) /\
    (forall j : nat, ~ In j (indices mixed_matcher) -> xs' !! j = mixed_zero !! j).
Proof.
  apply (unmarshal_writes_every_field Arch64 true mixed_shape (VPtr None) "[\s\S]*"
           mixed_matcher None "1 true x" ["1 tr"; "1"; "t"; "r"] mixed_zero).
  - vm_compute. reflexivity.
  - vm_compute. reflexivity.
  - reflexivity.
  - exact mixed_conversions.
Defined.

Lemma unmarshal_returns_witness :
  exists (xs' : list GoValue) (err : option error),
    Unmarshal Arch64 mixed_matcher "12 maybe x" (pointer_to mixed_shape mixed_zero) =
    Ok (pointer_to mixed_shape xs', err) /\
    length xs' = length mixed_zero /\
    (err = None <->
     forall n j : nat,
       indices mixed_matcher !! n = Some j ->
       exists y : GoValue,
         conversion Arch64 mixed_matcher ["12 m"; "1"; "2"; "m"] n = Some (Ok (inr y))).
Proof.
  apply (unmarshal_returns Arch64 true mixed_shape (VPtr None) "[\s\S]*"
           mixed_matcher None "12 maybe x" ["12 m"; "1"; "2"; "m"] mixed_zero).
  - vm_compute. reflexivity.
  - vm_compute. reflexivity.
  - reflexivity.
Defined.

Lemma unmarshal_idempotent_witness :
  Unmarshal Arch64 mixed_matcher "1 true x" (pointer_to mixed_shape mixed_zero) =
  Ok (pointer_to mixed_shape [VString EmptyString; VInt 1; VBool true; VString "r"], None) /\
  Unmarshal Arch64 mixed_matcher "1 true x"
    (pointer_to mixed_shape [VString EmptyString; VInt 1; VBool true; VString "r"]) =
  Ok (pointer_to mixed_shape [VString EmptyString; VInt 1; VBool true; VString "r"], None).
Proof.
  split; [vm_compute; reflexivity |].
  apply (unmarshal_idempotent Arch64 true mixed_shape (VPtr None) "[\s\S]*"
           mixed_matcher None "1 true x" mixed_zero).
  - vm_compute. reflexivity.
  - reflexivity.
  - vm_compute. reflexivity.
Defined.

Lemma text_fields_hold_captures_witness :
  exists xs' : list GoValue,
    Unmarshal Arch64 letter_matcher "a" (pointer_to letter_shape [VString "old"]) =
    Ok (pointer_to letter_shape xs', None) /\
    forall n j : nat,
      indices letter_matcher !! n = Some j ->
      exists text : string, ["a"; "a"] !! S n = Some text /\ xs' !! j = Some (VString text).
Proof.
  apply (text_fields_hold_captures Arch64 true letter_shape (VPtr None) "[\s\S]*"
           letter_matcher None "a" ["a"; "a"] [VString "old"]).
  - vm_compute. reflexivity.
  - vm_compute. reflexivity.
  - reflexivity.
  - intros ft [<- | []] _. reflexivity.
Defined.

Lemma unmarshal_needs_pointer_witness :
  Unmarshal Arch64 letter_matcher "a" (Iface (TStruct letter_shape) (VStruct [VString "old"])) =
    Panic "reflect: call of reflect.Value.Elem on non-pointer Value" /\
  Unmarshal Arch64 letter_matcher "a" nil_interface =
    Panic "reflect: call of reflect.Value.Elem on non-pointer Value".
Proof.
  apply (unmarshal_needs_pointer Arch64 letter_matcher "a" ["a"; "a"]).
  - vm_compute. reflexivity.
  - intros e. discriminate.
Defined.

Lemma unmarshal_nil_pointer_witness :
  (indices letter_matcher = [] ->
   Unmarshal Arch64 letter_matcher "a" (Iface (TPtr (TStruct letter_shape)) (VPtr None)) =
   Ok (Iface (TPtr (TStruct letter_shape)) (VPtr None), None)) /\
  (indices letter_matcher <> [] ->
   exists msg : string,
     Unmarshal Arch64 letter_matcher "a" (Iface (TPtr (TStruct letter_shape)) (VPtr None)) =
     Panic msg).
Proof.
  apply (unmarshal_nil_pointer Arch64 letter_matcher "a" ["a"; "a"]).
  vm_compute. reflexivity.
Defined.

(** The text 5 for the kind int and a Value of kind string. *)
Lemma typeParser_kind_mismatch_witness :
  (family_of String_ <> family_of Int ->
   match convert (lib := go_lib) Arch64 Int "5" with
   | Ok (inr _) =>
       exists msg : string,
         typeParser (lib := go_lib) Arch64 Int "5" (variable String_ (VString "old")) = Panic msg
   | Ok (inl e) =>
       typeParser (lib := go_lib) Arch64 Int "5" (variable String_ (VString "old")) =
       Ok (Some e, variable String_ (VString "old"))
   | Panic _ => False
   end) /\
  (family_of String_ = family_of Int ->
   exists r : option error * Value,
     typeParser (lib := go_lib) Arch64 Int "5" (variable String_ (VString "old")) = Ok r).
Proof.
  apply (typeParser_kind_mismatch (lib := go_lib) Arch64 Int String_ "5" (VString "old")).
  reflexivity.
Defined.

Lemma signed_field_exact_iff_fits_witness :
  exists z' : Z,
    typeParser (lib := go_lib) Arch64 Int8 "300" (variable Int8 (VInt 0)) =
    Ok (None, variable Int8 (VInt z')) /\
    - 2 ^ (kind_bits Arch64 Int8 - 1) <= z' < 2 ^ (kind_bits Arch64 Int8 - 1) /\
    (z' - 300) mod 2 ^ kind_bits Arch64 Int8 = 0 /\
    (z' = 300 <-> - 2 ^ (kind_bits Arch64 Int8 - 1) <= 300 < 2 ^ (kind_bits Arch64 Int8 - 1)).
Proof.
  apply (signed_field_exact_iff_fits (lib := go_lib) Arch64 Int8 "300" (VInt 0) 300).
  - right. left. reflexivity.
  - reflexivity.
  - split; [discriminate | reflexivity].
Defined.

Lemma unsigned_field_exact_iff_fits_witness :
  exists z' : Z,
    typeParser (lib := go_lib) Arch64 Uint8 "256" (variable Uint8 (VUint 7)) =
    Ok (None, variable Uint8 (VUint z')) /\
    0 <= z' < 2 ^ kind_bits Arch64 Uint8 /\
    (z' - 256) mod 2 ^ kind_bits Arch64 Uint8 = 0 /\
    (z' = 256 <-> 0 <= 256 < 2 ^ kind_bits Arch64 Uint8).
Proof.
  apply (unsigned_field_exact_iff_fits (lib := go_lib) Arch64 Uint8 "256" (VUint 7) 256).
  - right. left. reflexivity.
  - reflexivity.
  - reflexivity.
Defined.

(** The tag of WroteBytes in the tests has no key. *)
Lemma elided_key_uses_whole_tag_witness :
  field_tag (lib := go_lib) (field "WroteBytes" "Wrote: (\d+) bytes" (TOther Uint64)) =
  "Wrote: (\d+) bytes".
Proof.
  apply (elided_key_uses_whole_tag (lib := go_lib)
           (field "WroteBytes" "Wrote: (\d+) bytes" (TOther Uint64))).
  reflexivity.
Defined.

End FurtherExamples.
